(** * The request dispatch pipeline of [index.js]

    A shallow embedding of the entry point of the recruiting backend: the
    start-up configuration check, the CORS options, the memoised connection
    pool, the controller factories, the schema-initialisation middleware, the
    router mounts, the [/test-db] probe and the order in which the layers of
    the application are registered and run.

    The module mutates one module-level variable ([pool]), allocates objects
    with [new], writes to the console and calls collaborators that live in
    other files (the pool factory, the controllers, the routers, the
    middleware functions).  All of that is threaded through an explicit
    state, and the collaborators are oracles of an environment record; what
    loading the module itself relies on - the modules it requires, the
    [.env] file, the port - is a record of its own. *)

From stdpp Require Import base option list strings gmap.
From stdpp Require Import pretty.
From Stdlib Require Import String Ascii NArith ZArith Lia.

Local Open Scope string_scope.

(** ** Values *)

(** A thrown value that has properties: an [Error] object as a rule.
    [message] is what reading its [message] property gives, as the console
    prints it. *)
Record JsError := mkError {
  message : string;
  status : option nat    (* [err.status], set by http-errors *)
}.

(** What a collaborator throws (or an [async] collaborator rejects with): any
    value, so also [null] or [undefined], which have no properties. *)
Inductive Thrown :=
  | Raised (e : JsError)
  | RaisedNullish.

Coercion Raised : JsError >-> Thrown.

(** How [console.error] prints a thrown value. *)
Definition shown (t : Thrown) : string :=
  match t with
  | Raised e => message e
  | RaisedNullish => "undefined"
  end.

(** The object returned by [createPool()].  Objects are compared by
    identity, so the pool carries the address it was allocated at. *)
Record Pool := mkPool { pool_id : nat }.

Inductive ControllerClass :=
  | AuthController | OrganizationController | JobController
  | JobSeekerController | HiringManagerController | CustomFieldController
  | UserController | LeadController | TaskController
  | OfficeController | TeamController.

(** Modelled from the spec: the controller classes are declared in
    [./controllers/*], outside this file.  An instance is "a live controller
    instance bound to the shared pool": it remembers the pool passed to its
    constructor, and, like every object, has an identity of its own. *)
Record Controller := mkController {
  ctl_class : ControllerClass;
  ctl_id : nat;
  ctl_pool : Pool
}.

(** A client checked out of the pool by [pool.connect()]. *)
Record Client := mkClient { client_id : nat }.

(** A row of the result of [SELECT NOW()]: the column [now]. *)
Record Row := mkRow { now : string }.


(** ** Requests and responses *)

Inductive MediaType := ApplicationJson | FormUrlencoded | OtherMedia.

(** The payload of a request: its declared media type and its size in
    bytes. *)
Record Body := mkBody { media : MediaType; size : N }.

Record Request := mkRequest {
  method : string;
  path : string;                 (* [req.path]: the URL without the query *)
  originalUrl : string;
  origin : option string;        (* the [Origin] header *)
  body : option Body
}.

Inductive Json :=
  | SuccessTime (time : string)          (* {success: true, time: ...} *)
  | SuccessMessage (msg : string)        (* {success: true, message: ...} *)
  | Failure (error : string)             (* {success: false, error: ...} *)
  | OtherJson (text : string).              (* a body built by a collaborator *)

Record Response := mkResponse { statusCode : nat; payload : Json }.

(** What one layer does with a request. *)
Inductive Outcome :=
  | CallNext                     (* next() *)
  | CallNextErr (e : JsError)    (* next(err), or a synchronous throw *)
  | Respond (r : Response)       (* the response was sent *)
  | NoReply.                     (* neither: the request is left hanging *)

(** ** CORS options, as passed to the [cors] package *)

Inductive OriginOption :=
  | OriginTrue                          (* origin: true *)
  | OriginList (allowed : list string)  (* origin: [ ... ] *)
  | OriginStar.                         (* the package default, "*" *)

Record CorsOptions := mkCorsOptions {
  cors_origin : OriginOption;
  cors_methods : list string;
  cors_allowedHeaders : list string;
  cors_credentials : bool
}.

(** ** The layers of the application *)

Inductive Handler :=
  | Helmet
  | Compression
  | Cors (o : CorsOptions)
  | BodyJson (limit : N)
  | BodyUrlencoded (limit : N)
  | AccessLog
  | SchemaInit
  | SanitizeInputs
  | RouterMount (cls : ControllerClass)
  | TestDb
  | Root
  | NotFound
  | ErrorHandler.

(** Where a layer is mounted: [app.use(fn)], [app.use(prefix, fn)] or
    [app.get(path, fn)]. *)
Inductive Mount :=
  | AnyPath
  | Prefix (p : string)
  | GetExact (p : string).

Record Layer := mkLayer { mount : Mount; handler : Handler }.

Inductive Event :=
  | EvCreatePool                       (* createPool() was entered *)
  | EvPoolConstructed (p : Pool)       (* ... and returned a pool *)
  | EvNew (c : Controller)             (* new XController(pool) *)
  | EvInitTables (c : Controller)      (* c.initTables() was entered *)
  | EvConnect (c : Client)             (* pool.connect() resolved *)
  | EvQuery (c : Client) (sql : string)
  | EvRelease (c : Client)
  | EvEnter (h : Handler)              (* a layer was handed the request *)
  | EvRoute (c : Controller)           (* a router built on c got the request *)
  | EvListen (port : string).          (* app.listen(port) *)

(** ** The state of the process *)

Record State := mkState {
  pool : option Pool;      (* [let pool;]: [None] is [undefined] *)
  heap_next : nat;         (* the next free object address *)
  clock : nat;             (* collaborator calls made so far *)
  console : list string;   (* lines written by console.error / console.log *)
  events : list Event      (* what happened, oldest first *)
}.

Definition initial_state : State :=
  {| pool := None; heap_next := 0; clock := 0; console := []; events := [] |}.

Definition set_pool (p : Pool) (st : State) : State :=
  {| pool := Some p; heap_next := heap_next st; clock := clock st;
     console := console st; events := events st |}.

Definition alloc (st : State) : nat * State :=
  (heap_next st,
   {| pool := pool st; heap_next := S (heap_next st); clock := clock st;
      console := console st; events := events st |}).

Definition tick (st : State) : nat * State :=
  (clock st,
   {| pool := pool st; heap_next := heap_next st; clock := S (clock st);
      console := console st; events := events st |}).

Definition emit (e : Event) (st : State) : State :=
  {| pool := pool st; heap_next := heap_next st; clock := clock st;
     console := console st; events := events st ++ [e] |}.

Definition console_write (line : string) (st : State) : State :=
  {| pool := pool st; heap_next := heap_next st; clock := clock st;
     console := console st ++ [line]; events := events st |}.

(** ** Computations that may throw *)

Inductive result (A : Type) :=
  | Ok (a : A)
  | Throw (t : Thrown).
Arguments Ok {A} a.
Arguments Throw {A} t.

Definition M (A : Type) : Type := State -> result A * State.

#[export] Instance M_ret : MRet M := fun A a st => (Ok a, st).
#[export] Instance M_bind : MBind M := fun A B f m st =>
  match m st with
  | (Ok a, st') => f a st'
  | (Throw e, st') => (Throw e, st')
  end.

Definition throw {A} (t : Thrown) : M A := fun st => (Throw t, st).
Definition of_result {A} (r : result A) : M A := fun st => (r, st).
Definition modify (f : State -> State) : M unit := fun st => (Ok tt, f st).
Definition get_state : M State := fun st => (Ok st, st).
Definition fresh : M nat := fun st => let '(a, st') := alloc st in (Ok a, st').
Definition next_call : M nat := fun st => let '(k, st') := tick st in (Ok k, st').
Definition when (b : bool) (m : M unit) : M unit := if b then m else mret tt.

(** [try { body } catch (error) { handler }] *)
Definition try_catch {A} (body : M A) (handler : Thrown -> M A) : M A :=
  fun st =>
    match body st with
    | (Ok a, st') => (Ok a, st')
    | (Throw e, st') => handler e st'
    end.

(** [try { body } finally { cleanup }], for a cleanup that does not throw. *)
Definition try_finally {A} (body : M A) (cleanup : M unit) : M A :=
  fun st =>
    let '(r, st') := body st in
    match cleanup st' with
    | (Ok _, st'') => (r, st'')
    | (Throw e, st'') => (Throw e, st'')
    end.

(** [error.message]: reading a property of [null] or [undefined] throws a
    TypeError. *)
Definition read_message (error : Thrown) : M string :=
  match error with
  | Raised e => mret (message e)
  | RaisedNullish =>
      throw (mkError "Cannot read properties of undefined (reading 'message')" None)
  end.

(** [s.startsWith(pre)] *)
Definition startsWith (s pre : string) : bool := String.prefix pre s.

(** ** The collaborators

    Everything [index.js] calls but does not define.  Each oracle is indexed
    by the number of collaborator calls made before it, so that a
    collaborator may answer differently from one call to the next. *)

Record Env := mkEnv {
  (* ./config/database: does this call of createPool() throw (an Error)? *)
  createPool_throws : nat -> option JsError;
  (* ./controllers/*: does this call of initTables() reject, and with what? *)
  initTables_rejects : ControllerClass -> nat -> option Thrown;
  (* pg: does pool.connect() reject (with an Error)? *)
  connect_rejects : nat -> option JsError;
  (* pg: the rows of client.query(sql), or the error it rejects with *)
  query_answer : string -> nat -> result (list Row);
  (* helmet, compression, sanitizeInputs, notFound *)
  middleware_does : Handler -> Request -> nat -> Outcome;
  (* ./routes/*: the router built by createXRouter(controller, guards) *)
  router_does : Controller -> Request -> nat -> Outcome;
  (* ./middleware/errorMiddleware: errorHandler(err, req, res, next) *)
  errorHandler_does : JsError -> Request -> nat -> Outcome;
  (* body-parser, for a body it accepts to read: is it well formed? *)
  body_parses : Request -> option JsError;
  (* express: does the path (and method) of the request match the mount? *)
  route_matches : Mount -> Request -> bool;
  (* Date.now() *)
  date_now : nat -> Z
}.

Section Program.

Context (env : Env).

(** *** The connection pool provider *)

(** [createPool()] of [./config/database]: a new pool object, or an error. *)
Definition createPool : M Pool :=
  k ← next_call;
  _ ← modify (emit EvCreatePool);
  match createPool_throws env k with
  | Some e => throw e
  | None =>
      a ← fresh;
      _ ← modify (emit (EvPoolConstructed (mkPool a)));
      mret (mkPool a)
  end.

(** [[
let pool;
const getPool = () => {
  if (!pool) {
    pool = createPool();
  }
  return pool;
};
]] *)
Definition getPool : M Pool :=
  st ← get_state;
  match pool st with
  | None =>
      p ← createPool;
      _ ← modify (set_pool p);
      mret p
  | Some p => mret p
  end.

(** *** The controller factories *)

(** [new XController(p)]: a new object that keeps [p]. *)
Definition new_controller (cls : ControllerClass) (p : Pool) : M Controller :=
  a ← fresh;
  _ ← modify (emit (EvNew (mkController cls a p)));
  mret (mkController cls a p).

(** [const getXController = () => new XController(getPool());], one per
    class: the argument is evaluated first, then the object is made. *)
Definition getController (cls : ControllerClass) : M Controller :=
  p ← getPool;
  new_controller cls p.

Definition getAuthController := getController AuthController.
Definition getHiringManagerController := getController HiringManagerController.
Definition getOrganizationController := getController OrganizationController.
Definition getJobController := getController JobController.
Definition getUserController := getController UserController.
Definition getJobSeekerController := getController JobSeekerController.
Definition getCustomFieldController := getController CustomFieldController.
Definition getLeadController := getController LeadController.
Definition getTaskController := getController TaskController.
Definition getOfficeController := getController OfficeController.
Definition getTeamController := getController TeamController.

(** [await c.initTables()] *)
Definition initTables (c : Controller) : M unit :=
  k ← next_call;
  _ ← modify (emit (EvInitTables c));
  match initTables_rejects env (ctl_class c) k with
  | Some e => throw e
  | None => mret tt
  end.

(** [console.error(label, text)] prints the two separated by a space. *)
Definition console_error (label text : string) : M unit :=
  modify (console_write (label ++ " " ++ text)).

(** *** The schema-initialisation middleware *)

(** The body of the [try] block. *)
Definition schemaInit_try (req : Request) : M unit :=
  officeController ← getOfficeController;
  _ ← initTables officeController;
  teamController ← getTeamController;
  _ ← initTables teamController;
  authController ← getAuthController;
  _ ← initTables authController;
  _ ← when (startsWith (path req) "/api/organizations")
        (c ← getOrganizationController; initTables c);
  _ ← when (startsWith (path req) "/api/hiring-managers")
        (c ← getHiringManagerController; initTables c);
  _ ← when (startsWith (path req) "/api/jobs")
        (c ← getJobController; initTables c);
  _ ← when (startsWith (path req) "/api/job-seekers")
        (c ← getJobSeekerController; initTables c);
  _ ← when (startsWith (path req) "/api/custom-fields")
        (c ← getCustomFieldController; initTables c);
  _ ← when (startsWith (path req) "/api/leads")
        (c ← getLeadController; initTables c);
  when (startsWith (path req) "/api/tasks")
        (c ← getTaskController; initTables c).

(** [[
app.use(async (req, res, next) => {
  if (req.path.startsWith("/api/")) {
    try { ... } catch (error) {
      console.error("Failed to initialize tables:", error.message);
    }
  }
  next();
});
]] *)
Definition schemaInit (req : Request) : M Outcome :=
  _ ← when (startsWith (path req) "/api/")
        (try_catch (schemaInit_try req)
           (fun error =>
              text ← read_message error;
              console_error "Failed to initialize tables:" text));
  mret CallNext.

(** *** The router mounts *)

(** Only the auth router is built without guards. *)
Definition guarded (cls : ControllerClass) : bool :=
  match cls with AuthController => false | _ => true end.

(** [[
(req, res, next) => {
  createXRouter(getXController(),
                { verifyToken: verifyToken(getPool()), checkRole })(req, res, next);
}
]]
    The arguments are evaluated left to right, the router is built and then
    handed the request. *)
Definition routerMount (cls : ControllerClass) (req : Request) : M Outcome :=
  c ← getController cls;
  _ ← when (guarded cls) (_ ← getPool; mret tt);
  k ← next_call;
  _ ← modify (emit (EvRoute c));
  mret (router_does env c req k).

(** *** The probes *)

Definition res_json (code : nat) (j : Json) : M Outcome :=
  mret (Respond (mkResponse code j)).

(** [await pool.connect()] *)
Definition pool_connect (p : Pool) : M Client :=
  k ← next_call;
  match connect_rejects env k with
  | Some e => throw e
  | None =>
      a ← fresh;
      _ ← modify (emit (EvConnect (mkClient a)));
      mret (mkClient a)
  end.

(** [await client.query(sql)] *)
Definition client_query (c : Client) (sql : string) : M (list Row) :=
  k ← next_call;
  _ ← modify (emit (EvQuery c sql));
  of_result (query_answer env sql k).

Definition client_release (c : Client) : M unit :=
  modify (emit (EvRelease c)).

(** [result.rows[0].now]: reading a property of [undefined] throws. *)
Definition first_now (rows : list Row) : M string :=
  match rows with
  | r :: _ => mret (now r)
  | [] => throw (mkError "Cannot read properties of undefined (reading 'now')" None)
  end.

(** [[
app.get("/test-db", async (req, res) => {
  try {
    const pool = getPool();
    const client = await pool.connect();
    try {
      const result = await client.query("SELECT NOW()");
      res.json({ success: true, time: result.rows[0].now });
    } finally {
      client.release();
    }
  } catch (err) {
    console.error("Database query error:", err);
    res.status(500).json({ success: false, error: "Database error" });
  }
});
]] *)
Definition testDb (req : Request) : M Outcome :=
  try_catch
    (p ← getPool;
     client ← pool_connect p;
     try_finally
       (rows ← client_query client "SELECT NOW()";
        t ← first_now rows;
        res_json 200 (SuccessTime t))
       (client_release client))
    (fun err =>
       (* the console shows the value itself; no property of it is read *)
       _ ← console_error "Database query error:" (shown err);
       res_json 500 (Failure "Database error")).

(** [app.get("/", (req, res) => { res.json({...}); });] *)
Definition root (req : Request) : M Outcome :=
  res_json 200 (SuccessMessage "Backend is live on Vercel!").

End Program.

(** ** The packages configured by the module *)

(** *** [cors] *)

(** [isOriginAllowed(origin, allowedOrigin)] of the package: an array allows
    the origins equal to one of its strings, [true] allows any. *)
Definition isOriginAllowed (reqOrigin : string) (allowed : OriginOption) : bool :=
  match allowed with
  | OriginList l => existsb (String.eqb reqOrigin) l
  | OriginTrue => true
  | OriginStar => true
  end.

(** The value of [Access-Control-Allow-Origin], if the header is set: the
    request's origin is reflected when it is allowed. *)
Definition allowOriginHeader (allowed : OriginOption) (reqOrigin : option string)
  : option string :=
  match allowed with
  | OriginStar => Some "*"
  | _ =>
      match reqOrigin with
      | Some o => if isOriginAllowed o allowed && negb (o =? "") then Some o else None
      | None => None
      end
  end.

(** The value of [Access-Control-Allow-Methods]: [methods.join(",")]. *)
Definition allowMethodsHeader (o : CorsOptions) : string :=
  String.concat "," (cors_methods o).

Definition cors_defaults : CorsOptions :=
  {| cors_origin := OriginStar;
     cors_methods := ["GET"; "HEAD"; "PUT"; "PATCH"; "POST"; "DELETE"];
     cors_allowedHeaders := [];
     cors_credentials := false |}.

(** [cors(options)] builds the middleware; it does not throw. *)
Definition cors (options : option CorsOptions) : result Handler :=
  Ok (Cors (default cors_defaults options)).

(** The middleware answers a preflight itself and lets anything else through
    with the headers set. *)
Definition corsMiddleware (o : CorsOptions) (req : Request) : Outcome :=
  if method req =? "OPTIONS"
  then Respond (mkResponse 204 (OtherJson ""))
  else CallNext.

(** *** [body-parser] *)

(** The [limit: "1mb"] option, in bytes. *)
Definition limit_1mb : N := 1 * 1024 * 1024.

Definition is_json (m : MediaType) : bool :=
  match m with ApplicationJson => true | _ => false end.
Definition is_urlencoded (m : MediaType) : bool :=
  match m with FormUrlencoded => true | _ => false end.

(** The error a body parser raises for a body over its limit. *)
Definition too_large : JsError := mkError "request entity too large" (Some 413).

(** A parser skips a request without a body and a body of another media
    type; it refuses a body larger than the limit with 413, a malformed one
    with the error of the parser, and otherwise calls [next()]. *)
Definition bodyParser (env : Env) (accepts : MediaType -> bool) (limit : N)
    (req : Request) : Outcome :=
  match body req with
  | None => CallNext
  | Some b =>
      if negb (accepts (media b)) then CallNext
      else if (limit <? size b)%N
      then CallNextErr too_large
      else match body_parses env req with
           | Some e => CallNextErr e
           | None => CallNext
           end
  end.

(** ** Loading the module *)

(** [process.env] *)
Abbreviation ProcessEnv := (gmap string string).

(** What loading the module relies on besides [process.env]: the modules it
    requires, the [.env] file read by [dotenv], and the port it is to listen
    on. *)
Record Loader := mkLoader {
  (* require(name): does loading that module throw? *)
  require_throws : string -> option Thrown;
  (* dotenv: the variables of the .env file, and what config() prints *)
  dotenv_vars : gmap string string;
  dotenv_prints : list string;
  (* app.listen(port): does the call throw, as for a port out of range? *)
  listen_throws : string -> option Thrown
}.

Definition require_ (ld : Loader) (name : string) : M unit :=
  match require_throws ld name with
  | Some t => throw t
  | None => mret tt
  end.

Fixpoint require_all (ld : Loader) (names : list string) : M unit :=
  match names with
  | [] => mret tt
  | name :: rest => _ ← require_ ld name; require_all ld rest
  end.

(** Lines 1-5, 6-7 and 22-51. *)
Definition packages_before_config : list string :=
  ["express"; "nodemailer"; "body-parser"; "cors"; "dotenv"].

Definition packages_after_config : list string :=
  ["helmet"; "compression"].

Definition local_modules : list string :=
  ["./config/database";
   "./controllers/authController"; "./controllers/organizationController";
   "./controllers/jobController"; "./controllers/jobSeekerController";
   "./controllers/hiringManagerController"; "./controllers/customFieldController";
   "./controllers/userController"; "./controllers/leadController";
   "./controllers/taskController"; "./controllers/officeController";
   "./controllers/teamController";
   "./routes/authRoutes"; "./routes/organizationRoutes"; "./routes/jobRoutes";
   "./routes/jobSeekerRoutes"; "./routes/hiringManagerRoutes";
   "./routes/customFieldRoutes"; "./routes/userRoutes"; "./routes/leadRoutes";
   "./routes/taskRoutes"; "./routes/officeRoutes"; "./routes/teamRoutes";
   "./middleware/errorMiddleware"; "./middleware/validationMiddleware";
   "./middleware/authMiddleware"].

(** [process.env] once [dotenv] has filled it in: a variable that is already
    set keeps its value. *)
Definition loaded_env (ld : Loader) (penv0 : ProcessEnv) : ProcessEnv :=
  penv0 ∪ dotenv_vars ld.

Definition console_writes (lines : list string) (st : State) : State :=
  {| pool := pool st; heap_next := heap_next st; clock := clock st;
     console := console st ++ lines; events := events st |}.

(** [require("dotenv").config()], once the package is loaded. *)
Definition dotenv_config (ld : Loader) (penv0 : ProcessEnv) : M ProcessEnv :=
  _ ← modify (console_writes (dotenv_prints ld));
  mret (loaded_env ld penv0).

(** [!!process.env[name]]: unset and empty are both falsy. *)
Definition env_truthy (penv : ProcessEnv) (name : string) : bool :=
  match penv !! name with
  | Some v => negb (v =? "")
  | None => false
  end.

(** [process.env.NODE_ENV === "production"] *)
Definition is_production (penv : ProcessEnv) : bool :=
  bool_decide (penv !! "NODE_ENV" = Some "production").

Definition requiredEnvVars : list string :=
  ["JWT_SECRET"; "DB_HOST"; "DB_USER"; "DB_PASSWORD"; "DB_DATABASE"].

Definition missingEnvVars (penv : ProcessEnv) : list string :=
  List.filter (fun envVar => negb (env_truthy penv envVar)) requiredEnvVars.

(** Lines 10-19. *)
Definition check_env (penv : ProcessEnv) : M unit :=
  when (is_production penv)
    (when (0 <? List.length (missingEnvVars penv))%nat
       (_ ← console_error "❌ Missing required environment variables:"
              (String.concat ", " (missingEnvVars penv));
        _ ← modify (console_write
              "Please ensure all required environment variables are set in your Vercel deployment.");
        modify (console_write
              "Continuing with deployment but some features may not work properly."))).

(** [s.split(",")] *)
Fixpoint split_comma (s : string) : list string :=
  match s with
  | EmptyString => [EmptyString]
  | String c rest =>
      if Ascii.eqb c ","%char then EmptyString :: split_comma rest
      else match split_comma rest with
           | piece :: pieces => String c piece :: pieces
           | [] => [String c EmptyString]
           end
  end.

Definition allowedOrigins : list string :=
  ["http://localhost:3000";
   "https://ats-orcin.vercel.app";
   "https://ats-software-frontend.vercel.app";
   "https://cms-organization.vercel.app"].

Definition additionalOrigins (penv : ProcessEnv) : list string :=
  if env_truthy penv "ALLOWED_ORIGINS"
  then split_comma (default "" (penv !! "ALLOWED_ORIGINS"))
  else [].

Definition allOrigins (penv : ProcessEnv) : list string :=
  allowedOrigins ++ additionalOrigins penv.

Definition corsOptions (penv : ProcessEnv) : CorsOptions :=
  {| cors_origin := if is_production penv then OriginList (allOrigins penv) else OriginTrue;
     cors_methods := ["GET"; "POST"; "PUT"; "DELETE"; "OPTIONS"];
     cors_allowedHeaders := ["Content-Type"; "Authorization"; "X-Requested-With"];
     cors_credentials := true |}.

(** [process.env.PORT || 8080] *)
Definition port (penv : ProcessEnv) : string :=
  if env_truthy penv "PORT" then default "" (penv !! "PORT") else "8080".

Definition use (h : Handler) : Layer := mkLayer AnyPath h.
Definition use_at (p : string) (h : Handler) : Layer := mkLayer (Prefix p) h.
Definition get_at (p : string) (h : Handler) : Layer := mkLayer (GetExact p) h.

(** [app.use(prefix, sanitizeInputs, (req, res, next) => { ... })] registers
    two layers under the prefix. *)
Definition mount_router (p : string) (cls : ControllerClass) : list Layer :=
  [use_at p SanitizeInputs; use_at p (RouterMount cls)].

(** Lines 53-224: [app] is the stack of the application. *)
Definition register (penv : ProcessEnv) : M (list Layer) :=
  let app := [use Helmet; use Compression] in
  app ← try_catch
          (h ← of_result (cors (Some (corsOptions penv)));
           mret (app ++ [use h])%list)
          (fun error =>
             _ ← console_error "CORS configuration error:" (shown error);
             h ← of_result (cors None);
             mret (app ++ [use h])%list);
  let app := (app ++ [use (BodyJson limit_1mb); use (BodyUrlencoded limit_1mb)])%list in
  let app := (app ++ [use AccessLog])%list in
  let app := (app ++ [use SchemaInit])%list in
  let app := (app ++ mount_router "/api/auth" AuthController)%list in
  let app := (app ++ mount_router "/api/users" UserController)%list in
  let app := (app ++ mount_router "/api/organizations" OrganizationController)%list in
  let app := (app ++ mount_router "/api/jobs" JobController)%list in
  let app := (app ++ mount_router "/api/job-seekers" JobSeekerController)%list in
  let app := (app ++ mount_router "/api/hiring-managers" HiringManagerController)%list in
  let app := (app ++ mount_router "/api/custom-fields" CustomFieldController)%list in
  let app := (app ++ mount_router "/api/leads" LeadController)%list in
  let app := (app ++ mount_router "/api/tasks" TaskController)%list in
  let app := (app ++ mount_router "/api/offices" OfficeController)%list in
  let app := (app ++ mount_router "/api/teams" TeamController)%list in
  let app := (app ++ [get_at "/test-db" TestDb])%list in
  let app := (app ++ [get_at "/" Root])%list in
  let app := (app ++ [use NotFound])%list in
  let app := (app ++ [use ErrorHandler])%list in
  mret app.

(** [app.listen(port, callback)]: the call itself may throw; the callback is
    kept by the server and runs later, once it listens. *)
Definition app_listen (ld : Loader) (p : string) : M unit :=
  _ ← modify (emit (EvListen p));
  match listen_throws ld p with
  | Some t => throw t
  | None => mret tt
  end.

(** [() => { console.log(`Server running on port ${port}`); }] *)
Definition listening_callback (penv : ProcessEnv) : M unit :=
  modify (console_write ("Server running on port " ++ port penv)).

(** The module body, top to bottom, started with [penv0] as [process.env];
    the value is what [module.exports] receives. *)
Definition load_module (ld : Loader) (penv0 : ProcessEnv) : M (list Layer) :=
  _ ← require_all ld packages_before_config;
  penv ← dotenv_config ld penv0;
  _ ← require_all ld packages_after_config;
  _ ← check_env penv;
  _ ← require_all ld local_modules;
  app ← register penv;
  _ ← when (negb (is_production penv)) (app_listen ld (port penv));
  mret app.

(** ** Running a request through the stack *)

Inductive Reply :=
  | Replied (r : Response)
  | Hung.

Definition is_error_handler (h : Handler) : bool :=
  match h with ErrorHandler => true | _ => false end.

(** The handlers written as [async] functions. *)
Definition is_async (h : Handler) : bool :=
  match h with SchemaInit | TestDb => true | _ => false end.

Section Dispatch.

Context (env : Env).

Definition layer_matches (l : Layer) (req : Request) : bool :=
  match mount l with
  | AnyPath => true
  | m => route_matches env m req
  end.

(** A collaborator middleware, called as [fn(req, res, next)]. *)
Definition external (h : Handler) (req : Request) : M Outcome :=
  k ← next_call;
  mret (middleware_does env h req k).

Definition run_handler (h : Handler) (req : Request) : M Outcome :=
  match h with
  | Cors o => mret (corsMiddleware o req)
  | BodyJson limit => mret (bodyParser env is_json limit req)
  | BodyUrlencoded limit => mret (bodyParser env is_urlencoded limit req)
  | SchemaInit => schemaInit env req
  | RouterMount cls => routerMount env cls req
  | TestDb => testDb env req
  | Root => root req
  | Helmet | Compression | SanitizeInputs | NotFound => external h req
  | AccessLog => mret CallNext       (* its listener is kept by [run_layer] *)
  | ErrorHandler => mret CallNext    (* only ever handed an error, below *)
  end.

(** The router calls a layer inside [try { ... } catch (err) { next(err) }]:
    a synchronous throw becomes [next(err)].  The promise of an [async]
    handler is not looked at, so a rejection leaves the request without an
    answer. *)
Definition settle (h : Handler) (m : M Outcome) (st : State) : Outcome * State :=
  match m st with
  | (Ok o, st') => (o, st')
  | (Throw t, st') =>
      (if is_async h then NoReply
       else match t with
            | Raised e => CallNextErr e
            | RaisedNullish => CallNext     (* next(undefined) is next() *)
            end, st')
  end.

(** One matching layer.  The access logger notes [Date.now()], which the
    [finish] listener reads back; the error handler receives the error. *)
Definition run_layer (h : Handler) (err : option JsError) (started : option Z)
    (req : Request) (st : State) : Outcome * option Z * State :=
  match h, err with
  | AccessLog, _ =>
      let '(k, st') := tick st in (CallNext, Some (date_now env k), st')
  | ErrorHandler, Some e =>
      let '(k, st') := tick st in (errorHandler_does env e req k, started, st')
  | _, _ =>
      let '(o, st') := settle h (run_handler h req) st in (o, started, st')
  end.

(** The [finish] listener of the access logger. *)
Definition finish (started : option Z) (req : Request) (r : Response)
    (st : State) : Reply * State :=
  match started with
  | Some start =>
      let '(k, st') := tick st in
      (Replied r,
       console_write
         (method req ++ " " ++ originalUrl req ++ " " ++ pretty (statusCode r)
            ++ " " ++ pretty (date_now env k - start)%Z ++ "ms") st')
  | None => (Replied r, st)
  end.

(** What express answers when the stack is exhausted. *)
Definition finalhandler (err : option JsError) (req : Request) : Response :=
  match err with
  | None => mkResponse 404 (OtherJson ("Cannot " ++ method req ++ " " ++ path req))
  | Some e => mkResponse (default 500 (status e)) (OtherJson (message e))
  end.

Definition pending (err : option JsError) : bool :=
  match err with Some _ => true | None => false end.

(** The layers are tried in the order of the stack.  Without a pending error
    the error handlers are passed over; with one, everything else is. *)
Fixpoint dispatch (layers : list Layer) (err : option JsError)
    (started : option Z) (req : Request) (st : State) : Reply * State :=
  match layers with
  | [] => finish started req (finalhandler err req) st
  | l :: rest =>
      if negb (layer_matches l req) then dispatch rest err started req st
      else if negb (Bool.eqb (is_error_handler (handler l)) (pending err))
      then dispatch rest err started req st
      else
        let '(o, started', st1) :=
          run_layer (handler l) err started req (emit (EvEnter (handler l)) st) in
        match o with
        | CallNext => dispatch rest None started' req st1
        | CallNextErr e => dispatch rest (Some e) started' req st1
        | Respond r => finish started' req r st1
        | NoReply => (Hung, st1)
        end
  end.

Definition handle_request (app : list Layer) (req : Request) (st : State)
  : Reply * State :=
  dispatch app None None req st.

(** Requests handled one after the other by the same process. *)
Fixpoint serve (app : list Layer) (reqs : list Request) (st : State)
  : list Reply * State :=
  match reqs with
  | [] => ([], st)
  | req :: rest =>
      let '(r, st1) := handle_request app req st in
      let '(rs, st2) := serve app rest st1 in
      (r :: rs, st2)
  end.

(** [getPool()] called [n] times in a row. *)
Fixpoint getPool_times (n : nat) (st : State) : list (result Pool) * State :=
  match n with
  | O => ([], st)
  | S n' =>
      let '(r, st1) := getPool env st in
      let '(rs, st2) := getPool_times n' st1 in
      (r :: rs, st2)
  end.

End Dispatch.

(** ** Reading the event log *)

Definition constructed_pools (evs : list Event) : list Pool :=
  omap (fun e => match e with EvPoolConstructed p => Some p | _ => None end) evs.

Definition entered (evs : list Event) : list Handler :=
  omap (fun e => match e with EvEnter h => Some h | _ => None end) evs.

Definition initialised (evs : list Event) : list ControllerClass :=
  omap (fun e => match e with EvInitTables c => Some (ctl_class c) | _ => None end) evs.

Definition routed (evs : list Event) : list Controller :=
  omap (fun e => match e with EvRoute c => Some c | _ => None end) evs.

Definition client_eqb (a b : Client) : bool := Nat.eqb (client_id a) (client_id b).

(** The clients checked out of the pool and not given back. *)
Definition outstanding (evs : list Event) : list Client :=
  fold_left
    (fun held e =>
       match e with
       | EvConnect c => (held ++ [c])%list
       | EvRelease c => List.filter (fun c' => negb (client_eqb c c')) held
       | _ => held
       end) evs [].

(** ** Concrete collaborators, for the examples *)

(** A mount matches the path itself and what lies below it; a [get] route
    matches its path for GET. *)
Definition segment_match (m : Mount) (req : Request) : bool :=
  match m with
  | AnyPath => true
  | Prefix p => (path req =? p) || startsWith (path req) (p ++ "/")
  | GetExact p => (method req =? "GET") && (path req =? p)
  end.

(** Every collaborator works: the pool and the tables are created, the
    middleware call [next()], the routers answer 200, [notFound] passes a
    404 error on and [errorHandler] answers with the status of the error. *)
Definition healthy : Env :=
  {| createPool_throws := fun _ => None;
     initTables_rejects := fun _ _ => None;
     connect_rejects := fun _ => None;
     query_answer := fun _ _ => Ok [mkRow "2024-01-01T00:00:00.000Z"];
     middleware_does := fun h _ _ =>
       match h with
       | NotFound => CallNextErr (mkError "Not Found" (Some 404))
       | _ => CallNext
       end;
     router_does := fun _ _ _ => Respond (mkResponse 200 (OtherJson "ok"));
     errorHandler_does := fun e _ _ =>
       Respond (mkResponse (default 500 (status e)) (Failure (message e)));
     body_parses := fun _ => None;
     route_matches := segment_match;
     date_now := fun k => Z.of_nat k |}.

(** As [healthy], but [initTables()] of the given class always rejects. *)
Definition failing_init (cls : ControllerClass) (msg : string) : Env :=
  {| createPool_throws := createPool_throws healthy;
     initTables_rejects := fun c _ =>
       match c, cls with
       | OfficeController, OfficeController
       | TeamController, TeamController
       | AuthController, AuthController
       | JobController, JobController => Some (Raised (mkError msg None))
       | _, _ => None
       end;
     connect_rejects := connect_rejects healthy;
     query_answer := query_answer healthy;
     middleware_does := middleware_does healthy;
     router_does := router_does healthy;
     errorHandler_does := errorHandler_does healthy;
     body_parses := body_parses healthy;
     route_matches := route_matches healthy;
     date_now := date_now healthy |}.

Definition get (p : string) : Request :=
  {| method := "GET"; path := p; originalUrl := p; origin := None; body := None |}.

Definition post (p : string) (m : MediaType) (n : N) : Request :=
  {| method := "POST"; path := p; originalUrl := p; origin := None;
     body := Some (mkBody m n) |}.

(** The stack the module builds and exports when [process.env], as [dotenv]
    left it, is [penv]. *)
Definition application (penv : ProcessEnv) : list Layer :=
  match register penv initial_state with
  | (Ok app, _) => app
  | (Throw _, _) => []
  end.

(** Every module is found, there is no [.env] file and the port is free. *)
Definition plain_loader : Loader :=
  {| require_throws := fun _ => None;
     dotenv_vars := ∅;
     dotenv_prints := [];
     listen_throws := fun _ => None |}.

Definition development : ProcessEnv := ∅.
Definition production : ProcessEnv := {[ "NODE_ENV" := "production" ]}.

(** ** The initialisers selected by a path, as the specification words it

    "A fixed baseline set always runs for any /api/* request, and an
    additional resource-specific initializer runs when the path matches
    that resource's prefix." *)

Definition baseline : list ControllerClass :=
  [OfficeController; TeamController; AuthController].

Definition resource_prefixes : list (string * ControllerClass) :=
  [("/api/organizations", OrganizationController);
   ("/api/hiring-managers", HiringManagerController);
   ("/api/jobs", JobController);
   ("/api/job-seekers", JobSeekerController);
   ("/api/custom-fields", CustomFieldController);
   ("/api/leads", LeadController);
   ("/api/tasks", TaskController)].

Definition selected (p : string) : list ControllerClass :=
  snd <$> List.filter (fun entry => startsWith p (fst entry)) resource_prefixes.

Definition required_inits (p : string) : list ControllerClass :=
  if startsWith p "/api/" then (baseline ++ selected p)%list else [].

(** One initialiser after the other, stopping at the first that throws. *)
Fixpoint run_inits (env : Env) (classes : list ControllerClass) : M unit :=
  match classes with
  | [] => mret tt
  | cls :: rest =>
      c ← getController env cls;
      _ ← initTables env c;
      run_inits env rest
  end.

(** No collaborator that the initialisation relies on ever fails. *)
Definition schema_collaborators_work (env : Env) : Prop :=
  (forall k, createPool_throws env k = None) /\
  (forall cls k, initTables_rejects env cls k = None).

(** The line written by the [catch] clause of the middleware. *)
Definition init_failure_line (e : JsError) : string :=
  "Failed to initialize tables: " ++ message e.


(** The events written by [getPool()]. *)
Definition pool_event (e : Event) : bool :=
  match e with
  | EvCreatePool | EvPoolConstructed _ => true
  | _ => false
  end.

(** What holds of the controllers handed to the routers: each is a distinct
    object, allocated below the heap pointer, and holds the pool of the
    process, which is the only pool ever built. *)
Definition route_inv (st : State) : Prop :=
  constructed_pools (events st) = option_list (pool st) /\
  (forall c, c ∈ routed (events st) ->
     ctl_id c < heap_next st /\ pool st = Some (ctl_pool c)) /\
  NoDup (ctl_id <$> routed (events st)).

(** Two dispatches to routers of the same class use the same controller. *)
Definition controllers_reused (evs : list Event) : Prop :=
  forall c1 c2, c1 ∈ routed evs -> c2 ∈ routed evs ->
    ctl_class c1 = ctl_class c2 -> c1 = c2.

(** The layers that sit before input sanitisation and the routers. *)
Definition is_prelude (h : Handler) : bool :=
  match h with
  | Helmet | Compression | Cors _ | BodyJson _ | BodyUrlencoded _ => true
  | _ => false
  end.

(** A body that one of the two registered parsers reads. *)
Definition parsed_media (m : MediaType) : bool := is_json m || is_urlencoded m.

Definition oversized (req : Request) : bool :=
  match body req with
  | Some b => (limit_1mb <? size b)%N
  | None => false
  end.

Definition oversized_parsed (req : Request) : bool :=
  match body req with
  | Some b => parsed_media (media b) && (limit_1mb <? size b)%N
  | None => false
  end.

(** The handlers of the stack, in the order of the [app.use] calls. *)
Definition registration_order (penv : ProcessEnv) : list Handler :=
  [Helmet; Compression; Cors (corsOptions penv);
   BodyJson limit_1mb; BodyUrlencoded limit_1mb; AccessLog; SchemaInit;
   SanitizeInputs; RouterMount AuthController;
   SanitizeInputs; RouterMount UserController;
   SanitizeInputs; RouterMount OrganizationController;
   SanitizeInputs; RouterMount JobController;
   SanitizeInputs; RouterMount JobSeekerController;
   SanitizeInputs; RouterMount HiringManagerController;
   SanitizeInputs; RouterMount CustomFieldController;
   SanitizeInputs; RouterMount LeadController;
   SanitizeInputs; RouterMount TaskController;
   SanitizeInputs; RouterMount OfficeController;
   SanitizeInputs; RouterMount TeamController;
   TestDb; Root; NotFound; ErrorHandler].

(** The stages of the control flow the specification lists. *)
Definition stage (h : Handler) : nat :=
  match h with
  | Helmet | Compression => 0
  | Cors _ => 1
  | BodyJson _ | BodyUrlencoded _ => 2
  | AccessLog => 3
  | SchemaInit => 4
  | SanitizeInputs => 5
  | RouterMount _ | TestDb | Root => 6
  | NotFound | ErrorHandler => 7
  end.

(** ** Framing

    A relation between the state before and after a computation that every
    computation of the module respects as soon as its primitive steps do. *)
Definition frames (R : State -> State -> Prop) {A} (m : M A) : Prop :=
  forall st, R st (snd (m st)).

(** The events written by the calls into the collaborators, as opposed to
    those written by the dispatcher and by [createPool()]. *)
Definition collaborator_event (e : Event) : bool :=
  match e with
  | EvNew _ | EvInitTables _ | EvConnect _ | EvQuery _ _ | EvRelease _ => true
  | _ => false
  end.

#[export] Instance ControllerClass_eq_dec : EqDecision ControllerClass.
Proof. solve_decision. Defined.


(** The stack in two parts: the layers up to body parsing, and what is
    registered after them, the error handler coming last. *)
Definition prelude_layers (penv : ProcessEnv) : list Layer :=
  [use Helmet; use Compression; use (Cors (corsOptions penv));
   use (BodyJson limit_1mb); use (BodyUrlencoded limit_1mb)].

Definition inner_layers : list Layer :=
  ([use AccessLog; use SchemaInit]
   ++ mount_router "/api/auth" AuthController
   ++ mount_router "/api/users" UserController
   ++ mount_router "/api/organizations" OrganizationController
   ++ mount_router "/api/jobs" JobController
   ++ mount_router "/api/job-seekers" JobSeekerController
   ++ mount_router "/api/hiring-managers" HiringManagerController
   ++ mount_router "/api/custom-fields" CustomFieldController
   ++ mount_router "/api/leads" LeadController
   ++ mount_router "/api/tasks" TaskController
   ++ mount_router "/api/offices" OfficeController
   ++ mount_router "/api/teams" TeamController
   ++ [get_at "/test-db" TestDb; get_at "/" Root; use NotFound])%list.

(** A layer that, handed this request, raises the 413 error. *)
Definition rejects (env : Env) (h : Handler) (req : Request) : Prop :=
  forall err started st,
    fst (fst (run_layer env h err started req st)) = CallNextErr too_large.

(** The registered parser that reads the body of the request. *)
Definition parser_for (req : Request) : Handler :=
  match body req with
  | Some b => if is_json (media b) then BodyJson limit_1mb
              else BodyUrlencoded limit_1mb
  | None => BodyJson limit_1mb
  end.

(** The request reached neither the access logger, nor the schema
    initialisation, nor a sanitiser, a router, a probe or [notFound]. *)
Definition stopped_at_prelude (run : list Handler) : Prop :=
  Forall (fun h => is_prelude h || is_error_handler h = true) run.


(** ** More readings of the log and of the stack *)

(** How often [createPool()] was entered. *)
Definition createPool_entries (evs : list Event) : nat :=
  List.length
    (omap (fun e => match e with EvCreatePool => Some tt | _ => None end) evs).


(** The ports [app.listen] was called with. *)
Definition listening (evs : list Event) : list string :=
  omap (fun e => match e with EvListen p => Some p | _ => None end) evs.

(** What is in the log besides the entries of the dispatcher: the calls
    into the database layer, the controllers and the routers. *)
Definition effects (evs : list Event) : list Event :=
  List.filter (fun e => match e with EvEnter _ => false | _ => true end) evs.

(** As [healthy], but the first [k] calls of [createPool()] throw. *)
Definition failing_pool (k : nat) : Env :=
  {| createPool_throws := fun i =>
       if (i <? k)%nat then Some (mkError "ECONNREFUSED" None) else None;
     initTables_rejects := initTables_rejects healthy;
     connect_rejects := connect_rejects healthy;
     query_answer := query_answer healthy;
     middleware_does := middleware_does healthy;
     router_does := router_does healthy;
     errorHandler_does := errorHandler_does healthy;
     body_parses := body_parses healthy;
     route_matches := route_matches healthy;
     date_now := date_now healthy |}.

(** The line the [finish] listener of the access logger writes:
    [`${req.method} ${req.originalUrl} ${res.statusCode} ${duration}ms`]. *)
Definition access_line (req : Request) (r : Response) (duration : Z) : string :=
  method req ++ " " ++ originalUrl req ++ " " ++ pretty (statusCode r)
    ++ " " ++ pretty duration ++ "ms".

(** The seven layers registered for every path, before the first mount. *)
Definition global_layers (penv : ProcessEnv) : list Layer :=
  (prelude_layers penv ++ [use AccessLog; use SchemaInit])%list.

(** The sanitiser, the routers, the probes and [notFound]: what is
    registered after the global layers, the error handler apart. *)
Definition is_inner (h : Handler) : bool :=
  match h with
  | SanitizeInputs | RouterMount _ | TestDb | Root | NotFound => true
  | _ => false
  end.

(** A stack in which every router sits right behind a sanitiser mounted at
    the same place. *)
Inductive sanitised_stack : list Layer -> Prop :=
  | sanitised_nil : sanitised_stack []
  | sanitised_plain l rest :
      (forall cls, handler l <> RouterMount cls) ->
      sanitised_stack rest -> sanitised_stack (l :: rest)
  | sanitised_pair m cls rest :
      sanitised_stack rest ->
      sanitised_stack (mkLayer m SanitizeInputs :: mkLayer m (RouterMount cls) :: rest).

(** The number of commas of a string, and whether it has one. *)
Fixpoint commas (s : string) : nat :=
  match s with
  | EmptyString => 0
  | String c rest => (if Ascii.eqb c ","%char then 1 else 0) + commas rest
  end.

(** A layer that needs the database for this request: a router mount, the
    probe, and the schema initialisation under [/api/]. *)
Definition needs_database (h : Handler) (req : Request) : bool :=
  match h with
  | RouterMount _ | TestDb => true
  | SchemaInit => startsWith (path req) "/api/"
  | _ => false
  end.

(** A layer that, handed this request, does not call [next()]. *)
Definition blocks (env : Env) (h : Handler) (req : Request) : Prop :=
  forall err started st,
    fst (fst (run_layer env h err started req st)) <> CallNext.

(** The prefixes the routers are mounted at. *)
Definition mount_prefixes (app : list Layer) : list string :=
  omap (fun l => match mount l, handler l with
                 | Prefix p, RouterMount _ => Some p
                 | _, _ => None
                 end) app.

(** A production environment with everything the module asks for. *)
Definition configured : ProcessEnv :=
  {[ "NODE_ENV" := "production"; "JWT_SECRET" := "secret";
     "DB_HOST" := "db.internal"; "DB_USER" := "ats";
     "DB_PASSWORD" := "pw"; "DB_DATABASE" := "ats" ]}.

(** Every router entered was entered right after a sanitiser. *)
Definition behind_sanitiser (run : list Handler) : Prop :=
  forall before cls after,
    run = (before ++ RouterMount cls :: after)%list ->
    exists b, before = (b ++ [SanitizeInputs])%list.

(** ** The initialisers that run, as the specification words it

    "in a fixed order ... up to the first one that fails" *)






(** As [healthy], but [initTables()] of the given class rejects with
    [undefined], as [Promise.reject()] does. *)
Definition rejecting_undefined (cls : ControllerClass) : Env :=
  {| createPool_throws := createPool_throws healthy;
     initTables_rejects := fun c _ =>
       if decide (c = cls) then Some RaisedNullish else None;
     connect_rejects := connect_rejects healthy;
     query_answer := query_answer healthy;
     middleware_does := middleware_does healthy;
     router_does := router_does healthy;
     errorHandler_does := errorHandler_does healthy;
     body_parses := body_parses healthy;
     route_matches := route_matches healthy;
     date_now := date_now healthy |}.

(** The TypeError of reading [message] of [undefined]. *)
Definition message_of_undefined : JsError :=
  mkError "Cannot read properties of undefined (reading 'message')" None.

(** ** Reading a load of the module *)

(** What the first of these modules that cannot be loaded throws. *)
Fixpoint first_thrown (ld : Loader) (names : list string) : option Thrown :=
  match names with
  | [] => None
  | name :: rest =>
      match require_throws ld name with
      | Some t => Some t
      | None => first_thrown ld rest
      end
  end.

(** The three lines of the start-up check, for these names. *)
Definition missing_report (names : list string) : list string :=
  ["❌ Missing required environment variables: " ++ String.concat ", " names;
   "Please ensure all required environment variables are set in your Vercel deployment.";
   "Continuing with deployment but some features may not work properly."].

(** A required variable that is unset, or set to the empty string. *)
Definition unset_or_empty (penv : ProcessEnv) (v : string) : Prop :=
  penv !! v = None \/ penv !! v = Some "".

(** A deployment whose [.env] file selects production and sets nothing
    else; [dotenv] announces what it did. *)
Definition dotenv_loader : Loader :=
  {| require_throws := fun _ => None;
     dotenv_vars := {[ "NODE_ENV" := "production" ]};
     dotenv_prints := ["[dotenv] injecting env (1) from .env"];
     listen_throws := fun _ => None |}.

(** As [plain_loader], but [app.listen] refuses a port out of range. *)
Definition strict_loader : Loader :=
  {| require_throws := fun _ => None;
     dotenv_vars := ∅;
     dotenv_prints := [];
     listen_throws := fun p =>
       if p =? "70000"
       then Some (Raised (mkError "options.port should be >= 0 and < 65536" None))
       else None |}.

(** The layers a request with a body over the limit enters when nothing
    ahead of the parser of its body stops it. *)
Definition refused_run (penv : ProcessEnv) (req : Request) : list Handler :=
  ([Helmet; Compression; Cors (corsOptions penv)]
   ++ match parser_for req with
      | BodyUrlencoded _ => [BodyJson limit_1mb; BodyUrlencoded limit_1mb]
      | _ => [BodyJson limit_1mb]
      end
   ++ [ErrorHandler])%list.

(** * Properties *)

(** ** The monad *)

Lemma bind_run {A B} (m : M A) (f : A -> M B) (st : State) :
  (m ≫= f) st =
  match m st with
  | (Ok a, st') => f a st'
  | (Throw e, st') => (Throw e, st')
  end.
Proof. reflexivity. Qed.

Lemma when_true (m : M unit) : when true m = m.
Proof. reflexivity. Qed.

Lemma when_false (m : M unit) (st : State) : when false m st = (Ok tt, st).
Proof. reflexivity. Qed.

(** ** The pool is built once *)

Section PoolFacts.

Context (env : Env).

Lemma getPool_cached (st : State) (p : Pool) :
  pool st = Some p -> getPool env st = (Ok p, st).
Proof.
  intros Hp. unfold getPool. rewrite bind_run. cbn [get_state].
  rewrite Hp. reflexivity.
Qed.

(** The first call: [createPool()] is entered, and either a new pool is
    stored in the variable or the error leaves it [undefined]. *)
Lemma getPool_empty (st : State) :
  pool st = None ->
  getPool env st =
  match createPool_throws env (clock st) with
  | None =>
      (Ok (mkPool (heap_next st)),
       {| pool := Some (mkPool (heap_next st));
          heap_next := S (heap_next st); clock := S (clock st);
          console := console st;
          events := (events st ++ [EvCreatePool])
                      ++ [EvPoolConstructed (mkPool (heap_next st))] |})
  | Some e =>
      (Throw e,
       {| pool := None; heap_next := heap_next st; clock := S (clock st);
          console := console st; events := events st ++ [EvCreatePool] |})
  end.
Proof.
  intros Hp. unfold getPool. rewrite bind_run. cbn [get_state]. rewrite Hp.
  unfold createPool. rewrite !bind_run. cbn.
  destruct (createPool_throws env (clock st)); cbn; rewrite ?Hp; reflexivity.
Qed.

End PoolFacts.

(** ** Framing *)

Create HintDb frames.

Section Frame.

Context (env : Env) (R : State -> State -> Prop).

Hypothesis R_refl : forall st, R st st.
Hypothesis R_trans : forall a b c, R a b -> R b c -> R a c.
Hypothesis R_tick : forall st, R st (snd (tick st)).
Hypothesis R_alloc : forall st, R st (snd (alloc st)).
Hypothesis R_console : forall line st, R st (console_write line st).
Hypothesis R_emit : forall e st, collaborator_event e = true -> R st (emit e st).
Hypothesis R_getPool : forall st, R st (snd (getPool env st)).
Hypothesis R_route : forall cls req st, R st (snd (routerMount env cls req st)).

Lemma frames_ret {A} (a : A) : frames R (mret a).
Proof. intros st. apply R_refl. Qed.

Lemma frames_bind {A B} (m : M A) (f : A -> M B) :
  frames R m -> (forall a, frames R (f a)) -> frames R (m ≫= f).
Proof.
  intros Hm Hf st. rewrite bind_run. specialize (Hm st).
  destruct (m st) as [[a|e] st']; cbn in *; [|exact Hm].
  eapply R_trans; [exact Hm|apply Hf].
Qed.

Lemma frames_throw {A} (e : Thrown) : frames R (throw (A:=A) e).
Proof. intros st. apply R_refl. Qed.

Lemma frames_of_result {A} (r : result A) : frames R (of_result r).
Proof. intros st. apply R_refl. Qed.

Lemma frames_when (b : bool) (m : M unit) : frames R m -> frames R (when b m).
Proof. destruct b; [trivial|]. intros _. apply frames_ret. Qed.

Lemma frames_try_catch {A} (m : M A) (h : Thrown -> M A) :
  frames R m -> (forall e, frames R (h e)) -> frames R (try_catch m h).
Proof.
  intros Hm Hh st. unfold try_catch. specialize (Hm st).
  destruct (m st) as [[a|e] st']; cbn in *; [exact Hm|].
  eapply R_trans; [exact Hm|apply Hh].
Qed.

Lemma frames_try_finally {A} (m : M A) (c : M unit) :
  frames R m -> frames R c -> frames R (try_finally m c).
Proof.
  intros Hm Hc st. unfold try_finally. specialize (Hm st).
  destruct (m st) as [r st']. specialize (Hc st').
  destruct (c st') as [[[]|e] st'']; cbn in *; eapply R_trans; eauto.
Qed.

Lemma frames_next_call : frames R next_call.
Proof. intros st. apply R_tick. Qed.

Lemma frames_fresh : frames R fresh.
Proof. intros st. apply R_alloc. Qed.

Lemma frames_emit (e : Event) :
  collaborator_event e = true -> frames R (modify (emit e)).
Proof. intros He st. apply R_emit, He. Qed.

Lemma frames_console_write (line : string) : frames R (modify (console_write line)).
Proof. intros st. apply R_console. Qed.

Lemma frames_console_error (label text : string) : frames R (console_error label text).
Proof. apply frames_console_write. Qed.

Lemma frames_getPool : frames R (getPool env).
Proof. exact R_getPool. Qed.

Lemma frames_read_message (error : Thrown) : frames R (read_message error).
Proof. intros st. destruct error; apply R_refl. Qed.

#[local] Hint Resolve frames_ret frames_throw frames_of_result frames_next_call
  frames_fresh frames_console_write frames_console_error frames_getPool
  frames_read_message : frames.

Ltac frame :=
  repeat first
    [ solve [auto with frames]
    | apply frames_emit; reflexivity
    | apply frames_when
    | apply frames_try_catch; [|intros ?]
    | apply frames_try_finally
    | apply frames_bind; [|intros ?] ].

Lemma frames_getController (cls : ControllerClass) : frames R (getController env cls).
Proof. unfold getController, new_controller. frame. Qed.

Lemma frames_initTables (c : Controller) : frames R (initTables env c).
Proof.
  unfold initTables. frame.
  destruct (initTables_rejects env (ctl_class c) _); frame.
Qed.

#[local] Hint Resolve frames_getController frames_initTables : frames.

Lemma frames_schemaInit (req : Request) : frames R (schemaInit env req).
Proof.
  unfold schemaInit, schemaInit_try, getOfficeController, getTeamController,
    getAuthController, getOrganizationController, getHiringManagerController,
    getJobController, getJobSeekerController, getCustomFieldController,
    getLeadController, getTaskController.
  frame.
Qed.

Lemma frames_pool_connect (p : Pool) : frames R (pool_connect env p).
Proof. unfold pool_connect. frame. destruct (connect_rejects env _); frame. Qed.

Lemma frames_client_query (c : Client) (sql : string) :
  frames R (client_query env c sql).
Proof. unfold client_query. frame. Qed.

Lemma frames_first_now (rows : list Row) : frames R (first_now rows).
Proof. destruct rows; cbn; frame. Qed.

#[local] Hint Resolve frames_pool_connect frames_client_query frames_first_now
  : frames.

Lemma frames_testDb (req : Request) : frames R (testDb env req).
Proof. unfold testDb, client_release, res_json. frame. Qed.

Lemma frames_run_handler (h : Handler) (req : Request) :
  frames R (run_handler env h req).
Proof.
  destruct h; cbn [run_handler]; unfold external, root, res_json;
    auto using frames_schemaInit, frames_testDb; try (frame; fail).
  intros st. apply R_route.
Qed.

Lemma frames_run_layer h err started req st :
  R st (snd (run_layer env h err started req st)).
Proof.
  pose proof (frames_run_handler h req st) as Hh.
  assert (Hs : R st (snd (settle h (run_handler env h req) st))).
  { unfold settle. destruct (run_handler env h req st) as [[o|e] st']; exact Hh. }
  unfold run_layer.
  destruct h; try (destruct (settle _ _ st); exact Hs).
  - cbn. apply R_tick.
  - destruct err; [cbn; apply R_tick|].
    destruct (settle _ _ st); exact Hs.
Qed.

End Frame.

(** ** [getPool()] called again and again *)

Section PoolOnce.

Context (env : Env).

Lemma getPool_times_cached (n : nat) (st : State) (p : Pool) :
  pool st = Some p -> getPool_times env n st = (replicate n (Ok p), st).
Proof.
  intros Hp. induction n as [|n IH]; [reflexivity|].
  cbn [getPool_times]. rewrite (getPool_cached env st p Hp), IH. reflexivity.
Qed.

Lemma constructed_pools_snoc (evs : list Event) (e : Event) :
  constructed_pools (evs ++ [e]) =
  (constructed_pools evs ++
     match e with EvPoolConstructed p => [p] | _ => [] end)%list.
Proof. unfold constructed_pools. rewrite omap_app. destruct e; reflexivity. Qed.

(** From a state without a pool: whatever the factory does, the calls that
    return all return the one pool that was built, and nothing but that pool
    was built. *)
Lemma getPool_times_empty (n : nat) :
  forall st, pool st = None ->
  forall rs st', getPool_times env n st = (rs, st') ->
    constructed_pools (events st') =
      (constructed_pools (events st) ++ option_list (pool st'))%list /\
    (forall i p, rs !! i = Some (Ok p) ->
       pool st' = Some p /\
       forall j, i <= j -> j < n -> rs !! j = Some (Ok p)).
Proof.
  induction n as [|n IH]; intros st Hp rs st' Hrun.
  - cbn in Hrun. injection Hrun as <- <-. rewrite Hp. cbn.
    rewrite app_nil_r. split; [reflexivity|]. intros i p Hi. discriminate.
  - cbn [getPool_times] in Hrun. rewrite (getPool_empty env st Hp) in Hrun.
    destruct (createPool_throws env (clock st)) as [e|].
    + match type of Hrun with context [getPool_times env n ?s] =>
        specialize (IH s eq_refl); destruct (getPool_times env n s) as [rs1 st1]
      end.
      injection Hrun as <- <-. destruct (IH _ _ eq_refl) as [Hev Hres].
      split.
      * rewrite Hev. cbn [events]. rewrite constructed_pools_snoc.
        cbn. rewrite app_nil_r. reflexivity.
      * intros [|i] p Hi; [discriminate|]. cbn in Hi.
        destruct (Hres i p Hi) as [Hpool Hlater]. split; [exact Hpool|].
        intros [|j] Hle Hlt; [lia|]. cbn. apply Hlater; lia.
    + match type of Hrun with context [getPool_times env n ?s] =>
        rewrite (getPool_times_cached n s (mkPool (heap_next st)) eq_refl) in Hrun
      end.
      injection Hrun as <- <-. cbn [events pool]. split.
      * rewrite !constructed_pools_snoc. cbn. rewrite app_nil_r. reflexivity.
      * intros i p Hi.
        assert (p = mkPool (heap_next st)) as ->.
        { destruct i as [|i]; cbn in Hi; [congruence|].
          apply lookup_replicate in Hi as [Hi _]. congruence. }
        split; [reflexivity|]. intros [|j] Hle Hlt; [reflexivity|].
        cbn. apply lookup_replicate. split; [reflexivity|lia].
Qed.

End PoolOnce.

(** ** What the factories and the mounts do, step by step *)

Section Runs.

Context (env : Env).

Lemma getPool_ok (st st1 : State) (p : Pool) :
  getPool env st = (Ok p, st1) -> pool st1 = Some p.
Proof.
  destruct (pool st) as [q|] eqn:Hq.
  - rewrite (getPool_cached env st q Hq). congruence.
  - rewrite (getPool_empty env st Hq).
    destruct (createPool_throws env (clock st)); [discriminate|].
    intros [= <- <-]. reflexivity.
Qed.

(** [getPool()] only ever appends its own events to the log, and leaves the
    console alone. *)
Lemma getPool_events (st : State) :
  exists new, events (snd (getPool env st)) = (events st ++ new)%list /\
              Forall (fun e => pool_event e = true) new /\
              console (snd (getPool env st)) = console st.
Proof.
  destruct (pool st) as [q|] eqn:Hq.
  - rewrite (getPool_cached env st q Hq). exists []. cbn.
    rewrite app_nil_r. auto.
  - rewrite (getPool_empty env st Hq).
    destruct (createPool_throws env (clock st)); cbn.
    + exists [EvCreatePool]. repeat constructor.
    + exists [EvCreatePool; EvPoolConstructed (mkPool (heap_next st))].
      rewrite <- app_assoc. repeat constructor.
Qed.

Lemma getController_run (cls : ControllerClass) (st : State) :
  getController env cls st =
  match getPool env st with
  | (Ok p, st1) =>
      (Ok (mkController cls (heap_next st1) p),
       {| pool := pool st1; heap_next := S (heap_next st1); clock := clock st1;
          console := console st1;
          events := events st1 ++ [EvNew (mkController cls (heap_next st1) p)] |})
  | (Throw e, st1) => (Throw e, st1)
  end.
Proof.
  unfold getController. rewrite bind_run.
  destruct (getPool env st) as [[p|e] st1]; reflexivity.
Qed.

Lemma initTables_run (c : Controller) (st : State) :
  initTables env c st =
  ((match initTables_rejects env (ctl_class c) (clock st) with
    | Some e => Throw e
    | None => Ok tt
    end),
   {| pool := pool st; heap_next := heap_next st; clock := S (clock st);
      console := console st; events := events st ++ [EvInitTables c] |}).
Proof.
  unfold initTables. rewrite !bind_run. cbn.
  destruct (initTables_rejects env (ctl_class c) (clock st)); reflexivity.
Qed.

(** The mount builds a controller of its own for the request, on the pool
    that [getPool()] returns, and hands the request to a router built on
    that controller. *)
Lemma routerMount_run (cls : ControllerClass) (req : Request) (st : State) :
  routerMount env cls req st =
  match getPool env st with
  | (Ok p, st1) =>
      let c := mkController cls (heap_next st1) p in
      (Ok (router_does env c req (clock st1)),
       {| pool := pool st1; heap_next := S (heap_next st1);
          clock := S (clock st1); console := console st1;
          events := (events st1 ++ [EvNew c]) ++ [EvRoute c] |})
  | (Throw e, st1) => (Throw e, st1)
  end.
Proof.
  unfold routerMount. rewrite bind_run, getController_run.
  destruct (getPool env st) as [[p|e] st1] eqn:Hg; [|reflexivity].
  apply getPool_ok in Hg. rewrite bind_run.
  destruct (guarded cls); cbn [when].
  - rewrite bind_run.
    match goal with |- context [getPool env ?s] =>
      rewrite (getPool_cached env s p Hg) end.
    reflexivity.
  - reflexivity.
Qed.

End Runs.

(** ** Reading the log after an append *)

Lemma entered_app (a b : list Event) :
  entered (a ++ b) = (entered a ++ entered b)%list.
Proof. apply omap_app. Qed.

Lemma initialised_app (a b : list Event) :
  initialised (a ++ b) = (initialised a ++ initialised b)%list.
Proof. apply omap_app. Qed.

Lemma routed_app (a b : list Event) :
  routed (a ++ b) = (routed a ++ routed b)%list.
Proof. apply omap_app. Qed.

Lemma constructed_pools_app (a b : list Event) :
  constructed_pools (a ++ b) = (constructed_pools a ++ constructed_pools b)%list.
Proof. apply omap_app. Qed.

Lemma pool_events_silent (new : list Event) :
  Forall (fun e => pool_event e = true) new ->
  entered new = [] /\ initialised new = [] /\ routed new = [].
Proof.
  induction 1 as [|e new He _ (IH1 & IH2 & IH3)]; [auto|].
  destruct e; try discriminate; cbn; auto.
Qed.

(** ** The schema-initialisation middleware *)

Lemma bind_cong {A B} (m : M A) (f g : A -> M B) :
  (forall a st, f a st = g a st) -> forall st, (m ≫= f) st = (m ≫= g) st.
Proof.
  intros Hfg st. rewrite !bind_run. destruct (m st) as [[a|e] st']; auto.
Qed.

(** The cascade of [if (req.path.startsWith(...))] picks, in order, the
    entries of the prefix table that the path starts with. *)
Lemma selected_cases (p : string) :
  selected p =
  ((if startsWith p "/api/organizations" then [OrganizationController] else []) ++
   (if startsWith p "/api/hiring-managers" then [HiringManagerController] else []) ++
   (if startsWith p "/api/jobs" then [JobController] else []) ++
   (if startsWith p "/api/job-seekers" then [JobSeekerController] else []) ++
   (if startsWith p "/api/custom-fields" then [CustomFieldController] else []) ++
   (if startsWith p "/api/leads" then [LeadController] else []) ++
   (if startsWith p "/api/tasks" then [TaskController] else []))%list.
Proof.
  unfold selected, resource_prefixes. cbn [List.filter fst].
  destruct (startsWith p "/api/organizations"),
    (startsWith p "/api/hiring-managers"), (startsWith p "/api/jobs"),
    (startsWith p "/api/job-seekers"), (startsWith p "/api/custom-fields"),
    (startsWith p "/api/leads"), (startsWith p "/api/tasks"); reflexivity.
Qed.

Section SchemaInit.

Context (env : Env).

Lemma when_init (b : bool) (cls : ControllerClass) (k : M unit)
    (rest : list ControllerClass) :
  (forall st, k st = run_inits env rest st) ->
  forall st,
    (when b (c ← getController env cls; initTables env c) ≫= fun _ => k) st =
    run_inits env ((if b then [cls] else []) ++ rest)%list st.
Proof.
  intros Hk st. destruct b; cbn [when app run_inits].
  - rewrite !bind_run.
    destruct (getController env cls st) as [[c|e] st1]; [|reflexivity].
    rewrite bind_run.
    destruct (initTables env c st1) as [[[]|e] st2]; [apply Hk|reflexivity].
  - rewrite bind_run. cbn. apply Hk.
Qed.

Lemma when_init_last (b : bool) (cls : ControllerClass) (st : State) :
  when b (c ← getController env cls; initTables env c) st =
  run_inits env (if b then [cls] else []) st.
Proof.
  destruct b; cbn [when run_inits]; [|reflexivity].
  rewrite !bind_run.
  destruct (getController env cls st) as [[c|e] st1]; [|reflexivity].
  rewrite bind_run.
  destruct (initTables env c st1) as [[[]|e] st2]; reflexivity.
Qed.

(** The [try] block is the run of the baseline followed by the selected
    initialisers. *)
Lemma schemaInit_try_run (req : Request) (st : State) :
  schemaInit_try env req st =
  run_inits env (baseline ++ selected (path req))%list st.
Proof.
  unfold schemaInit_try, getOfficeController, getTeamController,
    getAuthController, getOrganizationController, getHiringManagerController,
    getJobController, getJobSeekerController, getCustomFieldController,
    getLeadController, getTaskController.
  rewrite selected_cases. cbn [baseline app run_inits].
  revert st.
  do 6 (apply bind_cong; intros ?).
  do 6 (apply when_init).
  intros st. apply when_init_last.
Qed.

End SchemaInit.

Section SchemaInitFacts.

Context (env : Env).

Lemma getPool_throws (st st1 : State) (t : Thrown) :
  getPool env st = (Throw t, st1) ->
  exists e, t = Raised e /\ createPool_throws env (clock st) = Some e.
Proof.
  destruct (pool st) as [q|] eqn:Hq.
  - rewrite (getPool_cached env st q Hq). discriminate.
  - rewrite (getPool_empty env st Hq).
    destruct (createPool_throws env (clock st)) as [e|]; [|discriminate].
    intros [= <- _]. eauto.
Qed.

(** The initialisers run in the order of the list and stop at the first
    failure: what has run is a prefix of the list, the whole list when
    nothing was thrown; what is thrown comes from the pool factory or from
    an initialiser of the list; the console is not written to. *)
Lemma run_inits_spec (classes : list ControllerClass) :
  forall st, exists ran,
    initialised (events (snd (run_inits env classes st))) =
      (initialised (events st) ++ ran)%list /\
    ran `prefix_of` classes /\
    (fst (run_inits env classes st) = Ok tt -> ran = classes) /\
    (forall t, fst (run_inits env classes st) = Throw t ->
       (exists k e, t = Raised e /\ createPool_throws env k = Some e) \/
       (exists cls k, cls ∈ classes /\ initTables_rejects env cls k = Some t)) /\
    console (snd (run_inits env classes st)) = console st.
Proof.
  induction classes as [|cls rest IH]; intros st.
  - exists []. cbn. rewrite app_nil_r. split_and!; auto. discriminate.
  - cbn [run_inits]. rewrite bind_run, getController_run.
    destruct (getPool_events env st) as (new & Hnew & Hquiet & Hcon).
    apply pool_events_silent in Hquiet as (_ & Hsilent & _).
    destruct (getPool env st) as [[p|e] st1] eqn:Hg; cbn [snd] in Hnew, Hcon.
    + rewrite bind_run, initTables_run. cbn [ctl_class clock].
      destruct (initTables_rejects env cls (clock st1)) as [e|] eqn:Hinit.
      * exists [cls]. cbn [fst snd events console].
        rewrite Hnew, !initialised_app, Hsilent. cbn. rewrite !app_nil_r.
        split_and!.
        -- reflexivity.
        -- apply prefix_cons, prefix_nil.
        -- discriminate.
        -- intros e' [= <-]. right. exists cls, (clock st1).
           split; [apply list_elem_of_here|exact Hinit].
        -- exact Hcon.
      * match goal with |- context [run_inits env rest ?s] =>
          set (st2 := s);
          destruct (IH st2) as (ran & Hran & Hpre & Hall & Horigin & Hcon')
        end.
        exists (cls :: ran). split_and!.
        -- rewrite Hran. subst st2. cbn [events].
           rewrite Hnew, !initialised_app, Hsilent. cbn.
           rewrite !app_nil_r, <- app_assoc. reflexivity.
        -- apply prefix_cons, Hpre.
        -- intros Hok. f_equal. apply Hall, Hok.
        -- intros t Ht. destruct (Horigin t Ht) as [?|(c & k & Hin & Hk)];
             [left; assumption|].
           right. exists c, k. split; [apply list_elem_of_further, Hin|exact Hk].
        -- rewrite Hcon'. exact Hcon.
    + exists []. cbn [fst snd]. rewrite Hnew, initialised_app, Hsilent.
      rewrite !app_nil_r. split_and!.
      * reflexivity.
      * apply prefix_nil.
      * discriminate.
      * intros e' [= <-]. left. exists (clock st).
        eapply getPool_throws, Hg.
      * exact Hcon.
Qed.

Lemma getPool_works (st : State) :
  (forall k, createPool_throws env k = None) ->
  exists p st1, getPool env st = (Ok p, st1).
Proof.
  intros Hw. destruct (getPool env st) as [[p|e] st1] eqn:Hg; [eauto|].
  apply getPool_throws in Hg as (e' & _ & Hg). rewrite Hw in Hg. discriminate.
Qed.

Lemma run_inits_works (classes : list ControllerClass) :
  schema_collaborators_work env ->
  forall st, fst (run_inits env classes st) = Ok tt.
Proof.
  intros [Hpool Hinit]. induction classes as [|cls rest IH]; intros st;
    [reflexivity|].
  cbn [run_inits]. rewrite bind_run, getController_run.
  destruct (getPool_works st Hpool) as (p & st1 & ->).
  rewrite bind_run, initTables_run, Hinit. apply IH.
Qed.







(** The middleware as a whole: the [try] block, then the [catch] clause if
    it threw - which itself throws when what it caught has no properties -,
    then [next()]. *)
Lemma schemaInit_run (req : Request) (st : State) :
  schemaInit env req st =
  if startsWith (path req) "/api/" then
    match schemaInit_try env req st with
    | (Ok _, st1) => (Ok CallNext, st1)
    | (Throw (Raised e), st1) =>
        (Ok CallNext,
         console_write ("Failed to initialize tables: " ++ message e) st1)
    | (Throw RaisedNullish, st1) => (Throw (Raised message_of_undefined), st1)
    end
  else (Ok CallNext, st).
Proof.
  unfold schemaInit. rewrite bind_run.
  destruct (startsWith (path req) "/api/"); cbn [when]; [|reflexivity].
  unfold try_catch.
  destruct (schemaInit_try env req st) as [[[]|[e|]] st1]; reflexivity.
Qed.

End SchemaInitFacts.

(** X18: an initialiser that fails with an error object is logged and
    swallowed.  When the [try] block of the schema-initialisation middleware
    throws a value [e] other than [null] and [undefined] on a request under
    [/api/] - and what it throws comes from an [initTables()] call or from
    the pool factory - the middleware writes the message of [e] to the
    console and calls [next()] without an error: the dispatcher goes on with
    the layers registered after it exactly as it does after a successful
    initialisation, with no error pending. *)
Theorem schemaInit_failure_is_swallowed
    (env : Env) (req : Request) (st st1 : State) (e : JsError)
    (rest : list Layer) (started : option Z) :
  startsWith (path req) "/api/" = true ->
  schemaInit_try env req (emit (EvEnter SchemaInit) st) = (Throw e, st1) ->
  schemaInit env req (emit (EvEnter SchemaInit) st) =
    (Ok CallNext,
     console_write (init_failure_line e) st1) /\
  console (console_write (init_failure_line e) st1) =
    (console st ++ [init_failure_line e])%list /\
  ((exists k, createPool_throws env k = Some e) \/
   (exists cls k, initTables_rejects env cls k = Some (Raised e))) /\
  dispatch env (use SchemaInit :: rest) None started req st =
    dispatch env rest None started req
      (console_write (init_failure_line e) st1).
Proof.
  intros Hapi Htry.
  assert (Hrun : schemaInit env req (emit (EvEnter SchemaInit) st) =
                 (Ok CallNext,
                  console_write (init_failure_line e) st1)).
  { rewrite schemaInit_run, Hapi, Htry. reflexivity. }
  destruct (run_inits_spec env (baseline ++ selected (path req))
              (emit (EvEnter SchemaInit) st))
    as (ran & _ & _ & _ & Horigin & Hcon).
  rewrite <- schemaInit_try_run, Htry in Horigin, Hcon. cbn [fst snd] in *.
  split_and!.
  - exact Hrun.
  - cbn [console console_write]. rewrite Hcon. reflexivity.
  - destruct (Horigin e eq_refl) as [(k & e' & [= <-] & Hk)|(cls & k & _ & Hk)];
      [left|right]; eauto.
  - cbn [dispatch]. unfold layer_matches, run_layer, settle.
    cbn [use mount handler negb is_error_handler pending Bool.eqb run_handler].
    rewrite Hrun. reflexivity.
Qed.

(** The office initialiser rejects on [GET /api/jobs]: the line is logged and
    the job router still answers. *)
Lemma schemaInit_failure_is_swallowed_witness :
  let env := failing_init OfficeController "boom" in
  let req := get "/api/jobs" in
  let rest := mount_router "/api/jobs" JobController in
  let '(reply, st') := dispatch env (use SchemaInit :: rest) None None req initial_state in
  reply = Replied (mkResponse 200 (OtherJson "ok")) /\
  console st' = ["Failed to initialize tables: boom"] /\
  entered (events st') = [SchemaInit; SanitizeInputs; RouterMount JobController].
Proof.
  intros env req rest.
  pose proof (schemaInit_failure_is_swallowed env req initial_state
                (snd (schemaInit_try env req (emit (EvEnter SchemaInit) initial_state)))
                (mkError "boom" None) rest None eq_refl eq_refl)
    as (_ & _ & _ & ->).
  vm_compute. repeat split.
Defined.

(** C1: the claim fails on the code when an initialiser rejects with
    [undefined].  The office initialiser does so on [GET /api/jobs]: the
    [catch] clause of the middleware throws on reading [error.message], so
    the middleware writes no line and does not get to [next()]; the request
    enters no layer after the middleware and is left without an answer. *)
Theorem undefined_rejection_is_not_swallowed :
  let env := rejecting_undefined OfficeController in
  let req := get "/api/jobs" in
  initTables_rejects env OfficeController 1 = Some RaisedNullish /\
  fst (schemaInit env req initial_state) = Throw (Raised message_of_undefined) /\
  console (snd (schemaInit env req initial_state)) = [] /\
  fst (handle_request env (application development) req initial_state) = Hung /\
  console (snd (handle_request env (application development) req initial_state)) = [] /\
  entered (events (snd (handle_request env (application development) req
                          initial_state))) =
    [Helmet; Compression; Cors (corsOptions development);
     BodyJson limit_1mb; BodyUrlencoded limit_1mb; AccessLog; SchemaInit].
Proof. vm_compute. repeat split. Qed.

(** ** Which initialisers run *)

Lemma healthy_works : schema_collaborators_work healthy.
Proof. split; intros; reflexivity. Qed.

Lemma schemaInit_initialised (env : Env) (req : Request) (st : State) :
  initialised (events (snd (schemaInit env req st))) =
  initialised
    (events (if startsWith (path req) "/api/"
             then snd (schemaInit_try env req st) else st)).
Proof.
  rewrite schemaInit_run. destruct (startsWith (path req) "/api/"); [|reflexivity].
  destruct (schemaInit_try env req st) as [[[]|[e|]] st1]; reflexivity.
Qed.








(** ** The [/test-db] probe *)

Lemma outstanding_pool_events (new tail : list Event) :
  Forall (fun e => pool_event e = true) new ->
  outstanding (new ++ tail) = outstanding tail.
Proof.
  intros Hnew. unfold outstanding. rewrite fold_left_app.
  f_equal. induction Hnew as [|e new He _ IH]; [reflexivity|].
  destruct e; try discriminate; exact IH.
Qed.

Lemma outstanding_borrow_release (c : Client) (between : list Event) :
  Forall (fun e => match e with EvQuery _ _ => True | _ => False end) between ->
  outstanding ([EvConnect c] ++ between ++ [EvRelease c]) = [].
Proof.
  intros Hb. unfold outstanding. rewrite !fold_left_app. cbn.
  replace (fold_left _ between [c]) with [c].
  - cbn. unfold client_eqb. rewrite Nat.eqb_refl. reflexivity.
  - induction Hb as [|e l He _ IH]; [reflexivity|].
    destruct e; try contradiction. exact IH.
Qed.

Lemma pool_connect_run (env : Env) (p : Pool) (st : State) :
  pool_connect env p st =
  match connect_rejects env (clock st) with
  | Some e =>
      (Throw e,
       {| pool := pool st; heap_next := heap_next st; clock := S (clock st);
          console := console st; events := events st |})
  | None =>
      (Ok (mkClient (heap_next st)),
       {| pool := pool st; heap_next := S (heap_next st); clock := S (clock st);
          console := console st;
          events := events st ++ [EvConnect (mkClient (heap_next st))] |})
  end.
Proof.
  unfold pool_connect. rewrite bind_run. cbn.
  destruct (connect_rejects env (clock st)); reflexivity.
Qed.

Lemma client_query_run (env : Env) (c : Client) (sql : string) (st : State) :
  client_query env c sql st =
  (query_answer env sql (clock st),
   {| pool := pool st; heap_next := heap_next st; clock := S (clock st);
      console := console st; events := events st ++ [EvQuery c sql] |}).
Proof. reflexivity. Qed.

(** C8: [GET /test-db] answers 200 with the time when the pool is there, a
    client is obtained and the query returns its row, and 500 with
    "Database error" in every other case; whatever happens, each client the
    handler has checked out has been released when it is done. *)
Theorem testDb_replies_and_releases (env : Env) (req : Request) (st : State) :
  let '(pr, st1) := getPool env st in
  let '(r, st') := testDb env req st in
  r = Ok (Respond
            match pr, connect_rejects env (clock st1),
                  query_answer env "SELECT NOW()" (S (clock st1)) with
            | Ok _, None, Ok (row :: _) => mkResponse 200 (SuccessTime (now row))
            | _, _, _ => mkResponse 500 (Failure "Database error")
            end) /\
  exists new, events st' = (events st ++ new)%list /\ outstanding new = [].
Proof.
  destruct (getPool_events env st) as (newp & Hnew & Hquiet & _).
  unfold testDb, try_catch. rewrite bind_run.
  destruct (getPool env st) as [[p|e] st1]; cbn [snd] in Hnew.
  - rewrite bind_run, pool_connect_run.
    destruct (connect_rejects env (clock st1)) as [e|].
    + cbn. split; [reflexivity|]. exists newp. split; [exact Hnew|].
      rewrite <- (app_nil_r newp). apply outstanding_pool_events, Hquiet.
    + unfold try_finally. rewrite bind_run, client_query_run. cbn [clock].
      destruct (query_answer env "SELECT NOW()" (S (clock st1))) as [[|row rows]|e];
        cbn; (split; [reflexivity|]);
        exists (newp ++ [EvConnect (mkClient (heap_next st1))]
                  ++ [EvQuery (mkClient (heap_next st1)) "SELECT NOW()"]
                  ++ [EvRelease (mkClient (heap_next st1))])%list;
        (split; [unfold console_write, emit; cbn [events];
                 rewrite Hnew, <- !app_assoc; reflexivity|]);
        rewrite (outstanding_pool_events _ _ Hquiet);
        apply outstanding_borrow_release; repeat constructor.
  - cbn. split; [reflexivity|]. exists newp. split; [exact Hnew|].
    rewrite <- (app_nil_r newp). apply outstanding_pool_events, Hquiet.
Qed.

(** The probe against a working database, and against one that refuses the
    query. *)
Lemma testDb_replies_and_releases_witness :
  fst (testDb healthy (get "/test-db") initial_state) =
    Ok (Respond (mkResponse 200 (SuccessTime "2024-01-01T00:00:00.000Z"))).
Proof.
  pose proof (testDb_replies_and_releases healthy (get "/test-db") initial_state) as H.
  destruct (getPool healthy initial_state) as [pr st1] eqn:Hp.
  destruct (testDb healthy (get "/test-db") initial_state) as [r st'].
  destruct H as [-> _]. vm_compute in Hp. injection Hp as <- <-. reflexivity.
Defined.

(** ** Loading the module *)

(** Registering the layers neither throws nor touches the state. *)
Lemma register_run (penv : ProcessEnv) (st : State) :
  register penv st = (Ok (application penv), st).
Proof. reflexivity. Qed.

Lemma application_handlers (penv : ProcessEnv) :
  handler <$> application penv = registration_order penv.
Proof. reflexivity. Qed.

Lemma require_all_run (ld : Loader) (names : list string) (st : State) :
  require_all ld names st =
  (match first_thrown ld names with
   | Some t => Throw t
   | None => Ok tt
   end, st).
Proof.
  induction names as [|name rest IH]; [reflexivity|].
  cbn [require_all first_thrown]. rewrite bind_run. unfold require_.
  destruct (require_throws ld name); [reflexivity|]. exact IH.
Qed.

Lemma first_thrown_none (ld : Loader) (names : list string) :
  (forall name, require_throws ld name = None) -> first_thrown ld names = None.
Proof.
  intros Hnone. induction names as [|name rest IH]; [reflexivity|].
  cbn. rewrite Hnone. exact IH.
Qed.

Lemma first_thrown_origin (ld : Loader) (names : list string) (t : Thrown) :
  first_thrown ld names = Some t ->
  exists name, name ∈ names /\ require_throws ld name = Some t.
Proof.
  induction names as [|name rest IH]; [discriminate|]. cbn.
  destruct (require_throws ld name) as [t'|] eqn:Hname.
  - intros [= <-]. exists name. split; [apply list_elem_of_here|exact Hname].
  - intros Hrest. destruct (IH Hrest) as (n & Hin & Hn).
    exists n. split; [apply list_elem_of_further, Hin|exact Hn].
Qed.

(** The start-up check never throws; it writes its three lines in
    production when a required variable is missing, and nothing otherwise. *)
Lemma check_env_run (penv : ProcessEnv) (st : State) :
  check_env penv st =
  (Ok tt,
   if is_production penv && (0 <? List.length (missingEnvVars penv))%nat
   then console_writes (missing_report (missingEnvVars penv)) st
   else st).
Proof.
  unfold check_env.
  destruct (is_production penv); [|reflexivity].
  generalize (missingEnvVars penv). intros names.
  destruct (0 <? List.length names)%nat; [|reflexivity].
  cbn [andb when].
  unfold console_error, modify, console_write, console_writes, missing_report,
    mbind, M_bind.
  cbn. rewrite <- !app_assoc. reflexivity.
Qed.

(** The load, step by step: a module that cannot be loaded ends it, and so
    does a throw of [app.listen]; nothing else does. *)
Lemma load_module_run (ld : Loader) (penv0 : ProcessEnv) (st : State) :
  load_module ld penv0 st =
  let penv := loaded_env ld penv0 in
  match first_thrown ld packages_before_config with
  | Some t => (Throw t, st)
  | None =>
      let st1 := console_writes (dotenv_prints ld) st in
      match first_thrown ld packages_after_config with
      | Some t => (Throw t, st1)
      | None =>
          let st2 := snd (check_env penv st1) in
          match first_thrown ld local_modules with
          | Some t => (Throw t, st2)
          | None =>
              if is_production penv then (Ok (application penv), st2)
              else
                (match listen_throws ld (port penv) with
                 | Some t => Throw t
                 | None => Ok (application penv)
                 end, emit (EvListen (port penv)) st2)
          end
      end
  end.
Proof.
  unfold load_module. rewrite bind_run, require_all_run.
  destruct (first_thrown ld packages_before_config); [reflexivity|].
  rewrite bind_run. unfold dotenv_config at 1. rewrite bind_run. cbn [modify].
  unfold mret at 1, M_ret at 1. cbv iota beta. rewrite bind_run, require_all_run.
  destruct (first_thrown ld packages_after_config); [reflexivity|].
  rewrite bind_run, check_env_run. cbn [snd].
  rewrite bind_run, require_all_run.
  destruct (first_thrown ld local_modules); [reflexivity|].
  rewrite bind_run, register_run, bind_run.
  destruct (is_production (loaded_env ld penv0)); cbn [negb when]; [reflexivity|].
  unfold app_listen. rewrite bind_run. cbn [modify].
  destruct (listen_throws ld (port (loaded_env ld penv0))); reflexivity.
Qed.

Lemma unset_is_missing (penv : ProcessEnv) (v : string) :
  v ∈ requiredEnvVars -> penv !! v = None -> v ∈ missingEnvVars penv.
Proof.
  intros Hin Hunset. unfold missingEnvVars.
  apply list_elem_of_In, filter_In. split; [apply list_elem_of_In, Hin|].
  unfold env_truthy. rewrite Hunset. reflexivity.
Qed.

(** The names the check reports: the required variables that are unset or
    empty, and no other. *)
Lemma missing_characterised (penv : ProcessEnv) (v : string) :
  v ∈ missingEnvVars penv <->
  v ∈ requiredEnvVars /\ unset_or_empty penv v.
Proof.
  unfold missingEnvVars, unset_or_empty.
  rewrite list_elem_of_In, filter_In, <- list_elem_of_In.
  unfold env_truthy. split; intros [Hreq Hv]; (split; [exact Hreq|]).
  - destruct (penv !! v) as [x|]; [|auto]. right.
    destruct (String.eqb_spec x ""); [congruence|discriminate].
  - destruct Hv as [->| ->]; reflexivity.
Qed.

(** ... in the order in which the module lists them. *)
Lemma missing_in_order (penv : ProcessEnv) :
  missingEnvVars penv `sublist_of` requiredEnvVars.
Proof.
  unfold missingEnvVars. generalize requiredEnvVars.
  induction l as [|x l IH]; cbn; [constructor|].
  destruct (negb (env_truthy penv x)); [apply sublist_skip|apply sublist_cons];
    exact IH.
Qed.

(** C10: in production, with a required variable unset once [dotenv] has
    filled in [process.env], the start-up check writes three lines to the
    console, the first of which names the required variables that are unset
    or empty - these and no other, in the order of the module's list -, and
    does not throw.  The load goes on after it: nothing starts listening,
    and the application, with its whole stack, is what the module exports;
    the only thing that can end the load is a module that cannot be
    loaded, whatever the configuration. *)
Theorem startup_continues_without_config
    (ld : Loader) (penv0 : ProcessEnv) (st : State) :
  let penv := loaded_env ld penv0 in
  let report := missing_report (missingEnvVars penv) in
  is_production penv = true ->
  (exists v, v ∈ requiredEnvVars /\ penv !! v = None) ->
  (forall v, v ∈ missingEnvVars penv <->
     v ∈ requiredEnvVars /\ unset_or_empty penv v) /\
  missingEnvVars penv `sublist_of` requiredEnvVars /\
  missingEnvVars penv <> [] /\
  (forall st0, check_env penv st0 = (Ok tt, console_writes report st0)) /\
  load_module ld penv0 st =
    match first_thrown ld packages_before_config with
    | Some t => (Throw t, st)
    | None =>
        let st1 := console_writes (dotenv_prints ld) st in
        match first_thrown ld packages_after_config with
        | Some t => (Throw t, st1)
        | None =>
            (match first_thrown ld local_modules with
             | Some t => Throw t
             | None => Ok (application penv)
             end, console_writes report st1)
        end
    end /\
  ((forall name, require_throws ld name = None) ->
   exists st',
     load_module ld penv0 st = (Ok (application penv), st') /\
     console st' = (console st ++ dotenv_prints ld ++ report)%list /\
     events st' = events st /\ pool st' = pool st) /\
  (forall t, fst (load_module ld penv0 st) = Throw t ->
     exists name, require_throws ld name = Some t) /\
  handler <$> application penv = registration_order penv.
Proof.
  intros penv report Hprod (v & Hreq & Hunset).
  pose proof (unset_is_missing penv v Hreq Hunset) as Hmiss.
  assert (Hne : missingEnvVars penv <> []).
  { intros Hnil. rewrite Hnil in Hmiss. apply not_elem_of_nil in Hmiss.
    exact Hmiss. }
  assert (Hcheck : forall st0,
             check_env penv st0 = (Ok tt, console_writes report st0)).
  { intros st0. rewrite check_env_run, Hprod.
    destruct (missingEnvVars penv) as [|m ms] eqn:Hm; [contradiction|].
    reflexivity. }
  assert (Hload : load_module ld penv0 st =
    match first_thrown ld packages_before_config with
    | Some t => (Throw t, st)
    | None =>
        let st1 := console_writes (dotenv_prints ld) st in
        match first_thrown ld packages_after_config with
        | Some t => (Throw t, st1)
        | None =>
            (match first_thrown ld local_modules with
             | Some t => Throw t
             | None => Ok (application penv)
             end, console_writes report st1)
        end
    end).
  { rewrite load_module_run. cbn zeta. fold penv. rewrite Hprod, Hcheck.
    cbn [snd].
    destruct (first_thrown ld packages_before_config); [reflexivity|].
    destruct (first_thrown ld packages_after_config); [reflexivity|].
    destruct (first_thrown ld local_modules); reflexivity. }
  split_and!.
  - apply missing_characterised.
  - apply missing_in_order.
  - exact Hne.
  - exact Hcheck.
  - exact Hload.
  - intros Hfound. rewrite Hload, !(first_thrown_none ld _ Hfound). cbn zeta.
    eexists. split; [reflexivity|]. cbn. rewrite <- app_assoc. auto.
  - intros t. rewrite Hload.
    destruct (first_thrown ld packages_before_config) as [t1|] eqn:H1.
    { cbn. intros [= <-]. apply first_thrown_origin in H1 as (n & _ & Hn). eauto. }
    destruct (first_thrown ld packages_after_config) as [t2|] eqn:H2.
    { cbn. intros [= <-]. apply first_thrown_origin in H2 as (n & _ & Hn). eauto. }
    destruct (first_thrown ld local_modules) as [t3|] eqn:H3; cbn; [|discriminate].
    intros [= <-]. apply first_thrown_origin in H3 as (n & _ & Hn). eauto.
  - apply application_handlers.
Qed.

(** Production selected by the [.env] file, with nothing else set: the five
    names are reported after the line of [dotenv], and the application is
    exported. *)
Lemma startup_continues_without_config_witness :
  exists st',
    load_module dotenv_loader ∅ initial_state =
      (Ok (application production), st') /\
    console st' =
      ["[dotenv] injecting env (1) from .env";
       "❌ Missing required environment variables: JWT_SECRET, DB_HOST, DB_USER, DB_PASSWORD, DB_DATABASE";
       "Please ensure all required environment variables are set in your Vercel deployment.";
       "Continuing with deployment but some features may not work properly."].
Proof.
  assert (Henv : loaded_env dotenv_loader ∅ = production)
    by (vm_compute; reflexivity).
  destruct (startup_continues_without_config dotenv_loader ∅ initial_state)
    as (_ & _ & _ & _ & _ & Hload & _).
  - rewrite Henv. reflexivity.
  - exists "JWT_SECRET". rewrite Henv.
    split; [apply list_elem_of_here|reflexivity].
  - destruct (Hload (fun _ => eq_refl)) as (st' & Hrun & Hcon & _).
    rewrite Henv in Hrun, Hcon.
    exists st'. split; [exact Hrun|]. rewrite Hcon. reflexivity.
Defined.

(** ** The CORS policy *)

Lemma existsb_eqb_elem (s : string) (l : list string) :
  existsb (String.eqb s) l = bool_decide (s ∈ l).
Proof.
  induction l as [|x l IH]; [reflexivity|]. cbn [existsb]. rewrite IH.
  destruct (String.eqb_spec s x) as [->|Hne]; cbn.
  - symmetry. apply bool_decide_eq_true. apply list_elem_of_here.
  - apply bool_decide_ext. rewrite elem_of_cons. tauto.
Qed.

Lemma split_comma_nonempty (s : string) : split_comma s <> [].
Proof.
  destruct s as [|c s]; cbn; [discriminate|].
  destruct (Ascii.eqb c ","%char); [discriminate|].
  destruct (split_comma s); discriminate.
Qed.

(** Splitting at the commas loses nothing: the pieces, joined by commas,
    are the string. *)
Lemma split_comma_concat (s : string) :
  String.concat "," (split_comma s) = s.
Proof.
  induction s as [|c s IH]; [reflexivity|]. cbn [split_comma].
  pose proof (split_comma_nonempty s) as Hne.
  destruct (split_comma s) as [|piece pieces]; [contradiction|].
  destruct (Ascii.eqb_spec c ","%char) as [->|_].
  - cbn in *. rewrite IH. reflexivity.
  - destruct pieces; cbn in *; rewrite <- IH; reflexivity.
Qed.

(** C7: in production an origin is allowed exactly when it is one of the
    built-in origins or one of the comma-separated pieces of
    [ALLOWED_ORIGINS]; otherwise every origin is allowed; either way the
    methods are GET, POST, PUT, DELETE and OPTIONS, and the middleware built
    from these options is the CORS layer of the application. *)
Theorem cors_policy (penv : ProcessEnv) (reqOrigin : string) :
  isOriginAllowed reqOrigin (cors_origin (corsOptions penv)) =
    (if is_production penv
     then bool_decide (reqOrigin ∈ (allowedOrigins ++ additionalOrigins penv)%list)
     else true) /\
  cors_methods (corsOptions penv) = ["GET"; "POST"; "PUT"; "DELETE"; "OPTIONS"] /\
  allowMethodsHeader (corsOptions penv) = "GET,POST,PUT,DELETE,OPTIONS" /\
  String.concat "," (additionalOrigins penv) = default "" (penv !! "ALLOWED_ORIGINS") /\
  (forall o, Cors o ∈ handler <$> application penv <-> o = corsOptions penv) /\
  allowOriginHeader (cors_origin (corsOptions penv)) (Some reqOrigin) =
    (if isOriginAllowed reqOrigin (cors_origin (corsOptions penv))
          && negb (reqOrigin =? "")
     then Some reqOrigin else None).
Proof.
  split_and!; [| | | | |unfold corsOptions; cbn [cors_origin];
                        destruct (is_production penv); reflexivity].
  - unfold corsOptions, allOrigins. cbn [cors_origin].
    destruct (is_production penv); [apply existsb_eqb_elem|reflexivity].
  - reflexivity.
  - reflexivity.
  - unfold additionalOrigins, env_truthy.
    destruct (penv !! "ALLOWED_ORIGINS") as [v|]; [|reflexivity].
    cbn [default]. destruct (String.eqb_spec v "") as [->|_]; [reflexivity|].
    apply split_comma_concat.
  - intros o. rewrite application_handlers. unfold registration_order. split.
    + intros Hin. repeat (apply elem_of_cons in Hin as [Hin|Hin];
                          [try discriminate; congruence|]).
      apply not_elem_of_nil in Hin. contradiction.
    + intros ->. do 2 apply list_elem_of_further. apply list_elem_of_here.
Qed.

(** In production with one more origin configured, and in development. *)
Lemma cors_policy_witness :
  let penv : ProcessEnv :=
    {[ "NODE_ENV" := "production";
       "ALLOWED_ORIGINS" := "https://a.example,https://b.example" ]} in
  isOriginAllowed "https://b.example" (cors_origin (corsOptions penv)) = true /\
  isOriginAllowed "https://evil.example" (cors_origin (corsOptions penv)) = false /\
  isOriginAllowed "https://evil.example" (cors_origin (corsOptions development)) = true.
Proof.
  intros penv.
  destruct (cors_policy penv "https://b.example") as (H1 & _).
  destruct (cors_policy penv "https://evil.example") as (H2 & _).
  destruct (cors_policy development "https://evil.example") as (H3 & _).
  rewrite H1, H2, H3. vm_compute. repeat split.
Defined.

(** ** Framing the dispatcher *)

Section DispatchFrame.

Context (env : Env) (R : State -> State -> Prop).

Hypothesis R_refl : forall st, R st st.
Hypothesis R_trans : forall a b c, R a b -> R b c -> R a c.
Hypothesis R_tick : forall st, R st (snd (tick st)).
Hypothesis R_console : forall line st, R st (console_write line st).
Hypothesis R_enter : forall h st, R st (emit (EvEnter h) st).
Hypothesis R_layer : forall h err started req st,
  R st (snd (run_layer env h err started req st)).

Lemma frames_finish started req r st : R st (snd (finish env started req r st)).
Proof.
  unfold finish. destruct started; [|apply R_refl].
  cbn. eapply R_trans; [apply (R_tick st)|apply R_console].
Qed.

Lemma frames_dispatch layers :
  forall err started req st, R st (snd (dispatch env layers err started req st)).
Proof.
  induction layers as [|l rest IH]; intros err started req st; cbn [dispatch].
  - apply frames_finish.
  - destruct (negb (layer_matches env l req)); [apply IH|].
    destruct (negb (Bool.eqb _ _)); [apply IH|].
    pose proof (R_layer (handler l) err started req (emit (EvEnter (handler l)) st))
      as Hl.
    destruct (run_layer env (handler l) err started req _) as [[o started'] st1].
    cbn [snd] in Hl.
    assert (Hst1 : R st st1) by (eapply R_trans; [apply R_enter|exact Hl]).
    destruct o.
    + eapply R_trans; [exact Hst1|apply IH].
    + eapply R_trans; [exact Hst1|apply IH].
    + eapply R_trans; [exact Hst1|apply frames_finish].
    + exact Hst1.
Qed.

Lemma frames_serve app reqs :
  forall st, R st (snd (serve env app reqs st)).
Proof.
  induction reqs as [|req rest IH]; intros st; cbn [serve]; [apply R_refl|].
  pose proof (frames_dispatch app None None req st) as Hd.
  unfold handle_request.
  destruct (dispatch env app None None req st) as [r st1].
  specialize (IH st1). destruct (serve env app rest st1) as [rs st2].
  eapply R_trans; [exact Hd|exact IH].
Qed.

End DispatchFrame.

(** ** The controllers handed to the routers *)

Lemma route_inv_same (st st' : State) :
  pool st' = pool st ->
  constructed_pools (events st') = constructed_pools (events st) ->
  routed (events st') = routed (events st) ->
  heap_next st <= heap_next st' ->
  route_inv st -> route_inv st'.
Proof.
  intros Hp Hc Hr Hh (Hpools & Hctl & Hnodup). unfold route_inv.
  rewrite Hp, Hc, Hr. split_and!; [exact Hpools| |exact Hnodup].
  intros c Hin. destruct (Hctl c Hin) as [Hlt Hpool]. split; [lia|exact Hpool].
Qed.

Lemma route_inv_emit (e : Event) (st : State) :
  constructed_pools [e] = [] -> routed [e] = [] ->
  route_inv st -> route_inv (emit e st).
Proof.
  intros Hc Hr. apply route_inv_same; cbn [emit pool events heap_next];
    [reflexivity| | |lia].
  - rewrite constructed_pools_app, Hc. apply app_nil_r.
  - rewrite routed_app, Hr. apply app_nil_r.
Qed.

Lemma route_inv_getPool (env : Env) (st : State) :
  route_inv st -> route_inv (snd (getPool env st)).
Proof.
  intros Hinv. destruct (pool st) as [q|] eqn:Hq.
  - rewrite (getPool_cached env st q Hq). exact Hinv.
  - rewrite (getPool_empty env st Hq).
    destruct Hinv as (Hpools & Hctl & Hnodup). rewrite Hq in Hpools.
    assert (Hnone : routed (events st) = []).
    { destruct (routed (events st)) as [|c l] eqn:Hr; [reflexivity|].
      destruct (Hctl c) as [_ Hpool]; [apply list_elem_of_here|].
      congruence. }
    destruct (createPool_throws env (clock st)); unfold route_inv;
      cbn [snd events pool heap_next];
      rewrite !routed_app, !constructed_pools_app, Hnone, Hpools; cbn;
      (split_and!; [reflexivity| |constructor]);
      intros c Hin; apply not_elem_of_nil in Hin; contradiction.
Qed.

Lemma route_inv_routerMount (env : Env) cls req (st : State) :
  route_inv st -> route_inv (snd (routerMount env cls req st)).
Proof.
  intros Hinv. rewrite routerMount_run.
  pose proof (route_inv_getPool env st Hinv) as Hinv1.
  destruct (getPool env st) as [[p|e] st1] eqn:Hg; [|exact Hinv1].
  apply getPool_ok in Hg. cbn [snd] in *.
  destruct Hinv1 as (Hpools & Hctl & Hnodup). unfold route_inv.
  cbn [events pool heap_next].
  rewrite !routed_app, !constructed_pools_app. cbn. rewrite !app_nil_r.
  split_and!.
  - exact Hpools.
  - intros c Hin. apply elem_of_app in Hin as [Hin|Hin].
    + destruct (Hctl c Hin) as [Hlt Hpool]. split; [lia|exact Hpool].
    + apply list_elem_of_singleton in Hin as ->. cbn. split; [lia|exact Hg].
  - rewrite fmap_app. cbn. apply NoDup_app. split_and!; [exact Hnodup| |].
    + intros i Hi Hi'. apply list_elem_of_singleton in Hi' as ->.
      apply list_elem_of_fmap in Hi as (c & Hid & Hin).
      destruct (Hctl c Hin) as [Hlt _]. lia.
    + apply NoDup_singleton.
Qed.

Lemma route_inv_run_layer (env : Env) h err started req (st : State) :
  route_inv st -> route_inv (snd (run_layer env h err started req st)).
Proof.
  apply (frames_run_layer env (fun a b => route_inv a -> route_inv b)).
  - auto.
  - auto.
  - intros s. apply route_inv_same; cbn; auto.
  - intros s. apply route_inv_same; cbn; auto.
  - intros line s. apply route_inv_same; cbn; auto.
  - intros e s He. apply route_inv_emit; destruct e; try discriminate; reflexivity.
  - apply route_inv_getPool.
  - apply route_inv_routerMount.
Qed.

Lemma route_inv_serve (env : Env) app reqs (st : State) :
  route_inv st -> route_inv (snd (serve env app reqs st)).
Proof.
  apply (frames_serve env (fun a b => route_inv a -> route_inv b)).
  - auto.
  - auto.
  - intros s. apply route_inv_same; cbn; auto.
  - intros line s. apply route_inv_same; cbn; auto.
  - intros h s. apply route_inv_emit; reflexivity.
  - intros. apply route_inv_run_layer. assumption.
Qed.

Lemma route_inv_initial : route_inv initial_state.
Proof.
  split_and!; cbn; [reflexivity| |constructor].
  intros c Hin. apply not_elem_of_nil in Hin. contradiction.
Qed.

(** C2: [getPool()] builds the pool at most once.  Whatever the pool factory
    does and however often [getPool()] is called from the start of the
    process: at most one pool is ever constructed; a call that returns a
    pool returns the pool that was constructed, and so does every later
    call; the first call is the one that enters [createPool()]; a call made
    while a pool is cached returns it and changes nothing, so that no second
    pool is built; and the calls that the middleware and the mounts make
    while requests are served build at most one pool as well. *)
Theorem getPool_constructs_once (env : Env) (n : nat) :
  let '(rs, st) := getPool_times env n initial_state in
  List.length (constructed_pools (events st)) <= 1 /\
  (forall i p, rs !! i = Some (Ok p) ->
     constructed_pools (events st) = [p] /\
     forall j, i <= j -> j < n -> rs !! j = Some (Ok p)) /\
  (forall r, rs !! 0 = Some r ->
     r = match createPool_throws env 0 with
         | None => Ok (mkPool 0)
         | Some e => Throw e
         end) /\
  (forall st0 p, pool st0 = Some p -> getPool env st0 = (Ok p, st0)) /\
  (forall app reqs,
     List.length (constructed_pools
                    (events (snd (serve env app reqs initial_state)))) <= 1).
Proof.
  destruct (getPool_times env n initial_state) as [rs st] eqn:Hrun.
  destruct (getPool_times_empty env n initial_state eq_refl rs st Hrun)
    as [Hev Hres].
  cbn in Hev. split_and!.
  - rewrite Hev. destruct (pool st); cbn; lia.
  - intros i p Hi. destruct (Hres i p Hi) as [Hpool Hlater]. split.
    + rewrite Hev, Hpool. reflexivity.
    + intros j Hle Hlt. apply Hlater; lia.
  - intros r Hr.
    destruct n as [|n]; [cbn in Hrun; injection Hrun as <- <-; discriminate|].
    cbn [getPool_times] in Hrun.
    rewrite (getPool_empty env initial_state eq_refl) in Hrun. cbn in Hrun.
    destruct (createPool_throws env 0);
      match type of Hrun with context [getPool_times env n ?s] =>
        destruct (getPool_times env n s) end;
      injection Hrun as <- <-; cbn in Hr; congruence.
  - intros st0 p. apply getPool_cached.
  - intros app reqs.
    destruct (route_inv_serve env app reqs initial_state route_inv_initial)
      as (Hpools & _ & _).
    rewrite Hpools.
    destruct (pool (snd (serve env app reqs initial_state))); cbn; lia.
Qed.

(** Three calls against a working factory. *)
Lemma getPool_constructs_once_witness :
  let '(rs, st) := getPool_times healthy 3 initial_state in
  constructed_pools (events st) = [mkPool 0] /\
  rs !! 2 = Some (Ok (mkPool 0)).
Proof.
  pose proof (getPool_constructs_once healthy 3) as H.
  vm_compute in H |- *. destruct H as (_ & H & _).
  destruct (H 0 (mkPool 0) eq_refl) as [Hc Hlater].
  split; [exact Hc|]. apply (Hlater 2); [apply Nat.le_0_l|constructor].
Defined.

(** C4 (as amended): every dispatch to a mounted router builds a controller
    of its own on the shared pool.  In any run of the process, the
    controllers that the routers were built on are pairwise distinct
    objects, and each of them holds the one pool the process has built. *)
Theorem routers_get_fresh_controllers
    (env : Env) (app : list Layer) (reqs : list Request) :
  let st := snd (serve env app reqs initial_state) in
  NoDup (ctl_id <$> routed (events st)) /\
  (forall c, c ∈ routed (events st) ->
     pool st = Some (ctl_pool c) /\
     constructed_pools (events st) = [ctl_pool c]).
Proof.
  intros st.
  destruct (route_inv_serve env app reqs initial_state route_inv_initial)
    as (Hpools & Hctl & Hnodup).
  fold st in Hpools, Hctl, Hnodup. split; [exact Hnodup|].
  intros c Hin. destruct (Hctl c Hin) as [_ Hpool].
  split; [exact Hpool|]. rewrite Hpools, Hpool. reflexivity.
Qed.

(** Two job requests: two controllers, one pool. *)
Lemma routers_get_fresh_controllers_witness :
  let st := snd (serve healthy (application development)
                   [get "/api/jobs"; get "/api/jobs"] initial_state) in
  routed (events st) =
    [mkController JobController 5 (mkPool 0);
     mkController JobController 10 (mkPool 0)] /\
  constructed_pools (events st) = [mkPool 0].
Proof.
  intros st.
  destruct (routers_get_fresh_controllers healthy (application development)
              [get "/api/jobs"; get "/api/jobs"]) as [_ Hshared].
  fold st in Hshared.
  assert (Hr : routed (events st) =
               [mkController JobController 5 (mkPool 0);
                mkController JobController 10 (mkPool 0)])
    by (vm_compute; reflexivity).
  split; [exact Hr|].
  apply (Hshared (mkController JobController 5 (mkPool 0))).
  rewrite Hr. apply list_elem_of_here.
Defined.

(** The claim as worded fails: the two dispatches to the job router use two
    different controller objects. *)
Lemma controllers_are_not_reused :
  ~ controllers_reused
      (events (snd (serve healthy (application development)
                      [get "/api/jobs"; get "/api/jobs"] initial_state))).
Proof.
  intros H.
  specialize (H (mkController JobController 5 (mkPool 0))
                (mkController JobController 10 (mkPool 0))).
  assert (Hr : routed (events (snd (serve healthy (application development)
                      [get "/api/jobs"; get "/api/jobs"] initial_state))) =
               [mkController JobController 5 (mkPool 0);
                mkController JobController 10 (mkPool 0)])
    by (vm_compute; reflexivity).
  rewrite Hr in H.
  discriminate H; [apply list_elem_of_here
                  |apply list_elem_of_further, list_elem_of_here|reflexivity].
Qed.

(** ** The order in which the layers run *)

Section Order.

Context (env : Env).

(** Only the dispatcher writes [EvEnter]; what a layer does leaves the
    record of the layers entered as it is. *)
Lemma entered_run_layer h err started req (st : State) :
  entered (events (snd (run_layer env h err started req st))) =
  entered (events st).
Proof.
  apply (frames_run_layer env
           (fun a b => entered (events b) = entered (events a))).
  - reflexivity.
  - intros a b c Hab Hbc. congruence.
  - reflexivity.
  - reflexivity.
  - reflexivity.
  - intros e s He. cbn. rewrite entered_app.
    destruct e; try discriminate; apply app_nil_r.
  - intros s. destruct (getPool_events env s) as (new & -> & Hq & _).
    apply pool_events_silent in Hq as (Hq & _).
    rewrite entered_app, Hq. apply app_nil_r.
  - intros cls rq s. rewrite routerMount_run.
    destruct (getPool_events env s) as (new & Hnew & Hq & _).
    apply pool_events_silent in Hq as (Hq & _).
    destruct (getPool env s) as [[p|e] s1]; cbn [snd events] in *;
      rewrite ?entered_app, Hnew, entered_app, Hq; cbn; rewrite !app_nil_r;
      reflexivity.
Qed.

Lemma finish_events started req r (st : State) :
  events (snd (finish env started req r st)) = events st.
Proof. unfold finish. destruct started; reflexivity. Qed.

(** The layers a request enters are entered in the order of the stack. *)
Lemma dispatch_entered (layers : list Layer) :
  forall err started req st,
  exists run,
    entered (events (snd (dispatch env layers err started req st))) =
      (entered (events st) ++ run)%list /\
    run `sublist_of` (handler <$> layers).
Proof.
  induction layers as [|l rest IH]; intros err started req st; cbn [dispatch].
  - exists []. rewrite finish_events, app_nil_r. split; [reflexivity|constructor].
  - destruct (negb (layer_matches env l req)).
    { destruct (IH err started req st) as (run & Hrun & Hsub).
      exists run. split; [exact Hrun|]. cbn. apply sublist_cons, Hsub. }
    destruct (negb (Bool.eqb _ _)).
    { destruct (IH err started req st) as (run & Hrun & Hsub).
      exists run. split; [exact Hrun|]. cbn. apply sublist_cons, Hsub. }
    pose proof (entered_run_layer (handler l) err started req
                  (emit (EvEnter (handler l)) st)) as Hl.
    destruct (run_layer env (handler l) err started req _) as [[o started'] st1].
    cbn [snd emit events] in Hl. rewrite entered_app in Hl. cbn in Hl.
    destruct o.
    + destruct (IH None started' req st1) as (run & Hrun & Hsub).
      exists (handler l :: run). rewrite Hrun, Hl, <- app_assoc.
      split; [reflexivity|]. cbn. apply sublist_skip, Hsub.
    + destruct (IH (Some e) started' req st1) as (run & Hrun & Hsub).
      exists (handler l :: run). rewrite Hrun, Hl, <- app_assoc.
      split; [reflexivity|]. cbn. apply sublist_skip, Hsub.
    + exists [handler l]. rewrite finish_events, Hl.
      split; [reflexivity|]. cbn. apply sublist_skip, sublist_nil_l.
    + exists [handler l]. cbn [snd]. rewrite Hl.
      split; [reflexivity|]. cbn. apply sublist_skip, sublist_nil_l.
Qed.

End Order.

(** What is last in a list, and occurs in it only there, has nothing after
    it in a sublist. *)
Lemma nothing_after_last {A} (x : A) (init before after : list A) :
  x ∉ init ->
  (before ++ x :: after)%list `sublist_of` (init ++ [x])%list ->
  after = [].
Proof.
  intros Hnotin Hsub.
  apply sublist_app_l in Hsub as (k1 & k2 & Hk & _ & Hsub).
  apply sublist_cons_l in Hsub as (k2a & k2b & -> & Hafter).
  destruct k2b as [|y k2b _] using rev_ind.
  - apply sublist_nil_r in Hafter. exact Hafter.
  - exfalso. apply Hnotin.
    replace (k1 ++ k2a ++ x :: k2b ++ [y])%list
      with ((k1 ++ k2a ++ x :: k2b) ++ [y])%list in Hk
      by (rewrite <- !app_assoc; reflexivity).
    apply app_inj_tail in Hk as [-> _].
    rewrite !elem_of_app, elem_of_cons. auto.
Qed.

(** C6: for a single request the layers run strictly in the order in which
    they were registered, and they were registered in the order security
    and compression headers, CORS, body parsing, access logging, schema
    initialisation, then for each router input sanitisation followed by the
    router (with its guards and handlers), then the probes, and last the
    error normaliser ([notFound], [errorHandler]). *)
Theorem layers_run_in_registration_order
    (env : Env) (penv : ProcessEnv) (req : Request) (st : State) :
  (exists run,
     entered (events (snd (handle_request env (application penv) req st))) =
       (entered (events st) ++ run)%list /\
     run `sublist_of` registration_order penv /\
     (forall before after,
        run = (before ++ ErrorHandler :: after)%list -> after = [])) /\
  handler <$> application penv = registration_order penv /\
  stage <$> registration_order penv =
    ([0; 0; 1; 2; 2; 3; 4] ++ List.concat (replicate 11 [5; 6]) ++ [6; 6; 7; 7])%list.
Proof.
  split_and!; [|apply application_handlers|reflexivity].
  destruct (dispatch_entered env (application penv) None None req st)
    as (run & Hrun & Hsub).
  rewrite application_handlers in Hsub.
  exists run. split_and!; [exact Hrun|exact Hsub|].
  intros before after ->.
  apply (nothing_after_last ErrorHandler
           (take 32 (registration_order penv)) before after); [|exact Hsub].
  unfold registration_order. cbn [take]. intros Hin.
  repeat (apply elem_of_cons in Hin as [Hin|Hin]; [discriminate|]).
  apply not_elem_of_nil in Hin. exact Hin.
Qed.

(** A job request against working collaborators runs through every stage in
    turn. *)
Lemma layers_run_in_registration_order_witness :
  let run := [Helmet; Compression; Cors (corsOptions development);
              BodyJson limit_1mb; BodyUrlencoded limit_1mb; AccessLog;
              SchemaInit; SanitizeInputs; RouterMount JobController] in
  entered (events (snd (handle_request healthy (application development)
                          (get "/api/jobs/1") initial_state))) = run /\
  run `sublist_of` registration_order development.
Proof.
  intros expected.
  destruct (layers_run_in_registration_order healthy development
              (get "/api/jobs/1") initial_state) as ((run & Hrun & Hsub & _) & _).
  assert (Hexp : run = expected).
  { apply (inj (app (entered (events initial_state)))).
    rewrite <- Hrun. vm_compute. reflexivity. }
  rewrite Hexp in Hrun, Hsub. split; [exact Hrun|exact Hsub].
Defined.

(** ** A body over the limit *)

Section Oversized.

Context (env : Env).

Lemma prelude_not_error (h : Handler) :
  is_prelude h = true -> is_error_handler h = false.
Proof. destruct h; cbn; congruence. Qed.

(** With an error pending, everything up to the error handler is passed
    over. *)
Lemma error_goes_to_errorHandler (normal : list Layer) :
  Forall (fun l => is_error_handler (handler l) = false) normal ->
  forall e started req st,
    entered (events (snd (dispatch env (normal ++ [use ErrorHandler])
                            (Some e) started req st))) =
    (entered (events st) ++ [ErrorHandler])%list.
Proof.
  induction 1 as [|l normal Hl _ IH]; intros e started req st.
  - cbn [app dispatch]. unfold layer_matches, run_layer.
    cbn [use mount handler negb is_error_handler pending Bool.eqb tick].
    destruct (errorHandler_does env e req _); cbn [dispatch];
      rewrite ?finish_events; cbn; rewrite entered_app; reflexivity.
  - cbn [app dispatch]. rewrite Hl. cbn [pending Bool.eqb negb].
    destruct (negb (layer_matches env l req)); apply IH.
Qed.

(** A prelude layer that rejects the request keeps it from everything that
    is registered after the prelude. *)
Lemma prelude_rejects (req : Request) (pre : list Layer) :
  Forall (fun l => mount l = AnyPath /\ is_prelude (handler l) = true) pre ->
  Exists (fun l => rejects env (handler l) req) pre ->
  forall normal,
    Forall (fun l => is_error_handler (handler l) = false) normal ->
    forall started st,
    exists run,
      entered (events (snd (dispatch env (pre ++ normal ++ [use ErrorHandler])
                              None started req st))) =
        (entered (events st) ++ run)%list /\
      stopped_at_prelude run /\
      (forall h, h ∈ run -> is_prelude h = true -> rejects env h req ->
         exists before, run = (before ++ [h; ErrorHandler])%list).
Proof.
  induction 1 as [|l pre [Hmount Hpre] Hrest IH]; intros Hex normal Hnormal started st.
  { inversion Hex. }
  cbn [app dispatch]. unfold layer_matches. rewrite Hmount.
  rewrite (prelude_not_error _ Hpre). cbn [negb pending Bool.eqb].
  pose proof (entered_run_layer env (handler l) None started req
                (emit (EvEnter (handler l)) st)) as Hl.
  destruct (run_layer env (handler l) None started req _)
    as [[o started'] st1] eqn:Hrun.
  cbn [snd emit events] in Hl. rewrite entered_app in Hl. cbn in Hl.
  assert (Hhead : forall h, rejects env h req -> h = handler l ->
                            o = CallNextErr too_large).
  { intros h Hrej ->.
    specialize (Hrej None started (emit (EvEnter (handler l)) st)).
    rewrite Hrun in Hrej. exact Hrej. }
  destruct o.
  - assert (Hex' : Exists (fun l => rejects env (handler l) req) pre).
    { inversion Hex as [? ? Hrej|? ? Hlater]; subst; [|exact Hlater].
      specialize (Hhead _ Hrej eq_refl). discriminate. }
    destruct (IH Hex' normal Hnormal started' st1) as (run & Hr & Hstop & Hend).
    exists (handler l :: run). rewrite Hr, Hl, <- app_assoc. split_and!.
    + reflexivity.
    + constructor; [rewrite Hpre; reflexivity|exact Hstop].
    + intros h Hin Hp Hrej. apply elem_of_cons in Hin as [->|Hin].
      * specialize (Hhead _ Hrej eq_refl). discriminate.
      * destruct (Hend h Hin Hp Hrej) as (before & ->).
        exists (handler l :: before). reflexivity.
  - rewrite app_assoc, error_goes_to_errorHandler.
    + exists [handler l; ErrorHandler]. rewrite Hl, <- app_assoc. split_and!.
      * reflexivity.
      * repeat constructor. rewrite Hpre. reflexivity.
      * intros h Hin Hp Hrej. apply elem_of_cons in Hin as [->|Hin].
        -- exists []. reflexivity.
        -- apply list_elem_of_singleton in Hin as ->. discriminate.
    + apply Forall_app. split; [|exact Hnormal].
      eapply Forall_impl; [exact Hrest|]. intros l' [_ Hp].
      apply prelude_not_error, Hp.
  - exists [handler l]. rewrite finish_events, Hl. split_and!.
    + reflexivity.
    + repeat constructor. rewrite Hpre. reflexivity.
    + intros h Hin Hp Hrej. apply list_elem_of_singleton in Hin as ->.
      specialize (Hhead _ Hrej eq_refl). discriminate.
  - exists [handler l]. cbn [snd]. rewrite Hl. split_and!.
    + reflexivity.
    + repeat constructor. rewrite Hpre. reflexivity.
    + intros h Hin Hp Hrej. apply list_elem_of_singleton in Hin as ->.
      specialize (Hhead _ Hrej eq_refl). discriminate.
Qed.

Lemma parser_rejects_oversized (req : Request) :
  oversized_parsed req = true -> rejects env (parser_for req) req.
Proof.
  unfold oversized_parsed, parser_for, parsed_media, rejects.
  intros Hover err started st. destruct (body req) as [b|] eqn:Hb; [|discriminate].
  apply andb_true_iff in Hover as [Hmedia Hsize].
  destruct (media b) eqn:Hm; try discriminate; cbn [is_json];
    unfold run_layer, settle; cbn [run_handler mret M_ret fst];
    unfold bodyParser; rewrite Hb, Hm; cbn [is_json is_urlencoded negb];
    rewrite Hsize; destruct err; reflexivity.
Qed.

End Oversized.

Lemma application_layout (penv : ProcessEnv) :
  application penv =
  (prelude_layers penv ++ inner_layers ++ [use ErrorHandler])%list.
Proof. reflexivity. Qed.

Section Refused.

Context (env : Env).

(** [helmet] or [compression] calling [next()]. *)
Lemma dispatch_passes (h : Handler) (rest : list Layer) (started : option Z)
    (req : Request) (st : State) :
  h = Helmet \/ h = Compression ->
  middleware_does env h req (clock st) = CallNext ->
  dispatch env (use h :: rest) None started req st =
  dispatch env rest None started req (snd (tick (emit (EvEnter h) st))).
Proof.
  intros [-> | ->] Hnext; cbn [dispatch]; unfold layer_matches, run_layer, settle;
    cbn [use mount handler negb is_error_handler pending Bool.eqb run_handler];
    unfold external; rewrite bind_run; cbn [next_call tick emit clock];
    cbn [mret M_ret is_async]; rewrite Hnext; reflexivity.
Qed.

(** A body parser does not touch the state: it passes the request on, or
    the error it raises. *)
Lemma dispatch_parser (h : Handler) (rest : list Layer) (started : option Z)
    (req : Request) (st : State) :
  (exists limit, h = BodyJson limit \/ h = BodyUrlencoded limit) ->
  dispatch env (use h :: rest) None started req st =
  match fst (fst (run_layer env h None started req st)) with
  | CallNext => dispatch env rest None started req (emit (EvEnter h) st)
  | CallNextErr e => dispatch env rest (Some e) started req (emit (EvEnter h) st)
  | Respond r => finish env started req r (emit (EvEnter h) st)
  | NoReply => (Hung, emit (EvEnter h) st)
  end.
Proof.
  intros [limit [-> | ->]]; cbn [dispatch]; unfold layer_matches, run_layer, settle;
    cbn [use mount handler negb is_error_handler pending Bool.eqb run_handler
         mret M_ret fst];
    match goal with |- context [bodyParser env ?a ?l req] =>
      destruct (bodyParser env a l req) end; reflexivity.
Qed.

Lemma dispatch_cors (o : CorsOptions) (rest : list Layer) (started : option Z)
    (req : Request) (st : State) :
  (method req =? "OPTIONS") = false ->
  dispatch env (use (Cors o) :: rest) None started req st =
  dispatch env rest None started req (emit (EvEnter (Cors o)) st).
Proof.
  intros Hm. cbn [dispatch]. unfold layer_matches, run_layer, settle.
  cbn [use mount handler negb is_error_handler pending Bool.eqb run_handler
       mret M_ret].
  unfold corsMiddleware. rewrite Hm. reflexivity.
Qed.

Lemma parser_skips_other (accepts : MediaType -> bool) (limit : N)
    (req : Request) (b : Body) :
  body req = Some b -> accepts (media b) = false ->
  bodyParser env accepts limit req = CallNext.
Proof. intros Hb Ha. unfold bodyParser. rewrite Hb, Ha. reflexivity. Qed.

Lemma inner_not_error :
  Forall (fun l => is_error_handler (handler l) = false) inner_layers.
Proof. repeat constructor. Qed.

(** With [helmet] and [compression] passing the request on, and the
    request not a preflight, a body over the limit gets to its parser and
    from there to the error handler. *)
Lemma oversized_run (penv : ProcessEnv) (req : Request) (st : State) :
  oversized_parsed req = true ->
  middleware_does env Helmet req (clock st) = CallNext ->
  middleware_does env Compression req (S (clock st)) = CallNext ->
  (method req =? "OPTIONS") = false ->
  entered (events (snd (handle_request env (application penv) req st))) =
  (entered (events st) ++ refused_run penv req)%list.
Proof.
  intros Hover Hhelmet Hcompression Hmethod.
  pose proof (parser_rejects_oversized env req Hover) as Hrej.
  unfold handle_request. rewrite application_layout.
  unfold prelude_layers. cbn [app].
  rewrite dispatch_passes by (auto; exact Hhelmet).
  rewrite dispatch_passes by (auto; exact Hcompression).
  rewrite dispatch_cors by exact Hmethod.
  unfold refused_run, parser_for in *. unfold oversized_parsed in Hover.
  destruct (body req) as [b|] eqn:Hb; [|discriminate].
  destruct (is_json (media b)) eqn:Hjson.
  - rewrite dispatch_parser by eauto. rewrite Hrej.
    rewrite (error_goes_to_errorHandler env (use (BodyUrlencoded limit_1mb)
                                               :: inner_layers)).
    + cbn [events emit tick snd]. rewrite !entered_app. cbn.
      rewrite <- !app_assoc. reflexivity.
    + constructor; [reflexivity|apply inner_not_error].
  - rewrite dispatch_parser by eauto.
    unfold run_layer at 1, settle. cbn [run_handler mret M_ret fst].
    rewrite (parser_skips_other is_json limit_1mb req b Hb Hjson).
    rewrite dispatch_parser by eauto. rewrite Hrej.
    rewrite (error_goes_to_errorHandler env inner_layers) by apply inner_not_error.
    cbn [events emit tick snd]. rewrite !entered_app. cbn.
    rewrite <- !app_assoc. reflexivity.
Qed.

End Refused.

(** C9 (as amended): a request whose JSON or URL-encoded body exceeds 1mb
    never reaches the access logger, the schema initialisation, a
    sanitiser, a router or a probe, whatever the collaborators do.  The
    parser that reads its body raises the 413 error, and when the request
    gets as far as that parser the error handler is the next and last layer
    to run; it gets there whenever [helmet] and [compression] pass it on and
    it is not a preflight, which the CORS layer answers.  A body of another
    media type is passed on by both parsers, whatever its size. *)
Theorem oversized_body_is_rejected
    (env : Env) (penv : ProcessEnv) (req : Request) (st : State) :
  oversized_parsed req = true ->
  (exists run,
     entered (events (snd (handle_request env (application penv) req st))) =
       (entered (events st) ++ run)%list /\
     stopped_at_prelude run /\
     rejects env (parser_for req) req /\
     (parser_for req ∈ run ->
      exists before, run = (before ++ [parser_for req; ErrorHandler])%list) /\
     (middleware_does env Helmet req (clock st) = CallNext ->
      middleware_does env Compression req (S (clock st)) = CallNext ->
      (method req =? "OPTIONS") = false ->
      run = refused_run penv req)) /\
  (forall (other : Request) (b : Body),
     body other = Some b -> parsed_media (media b) = false ->
     bodyParser env is_json limit_1mb other = CallNext /\
     bodyParser env is_urlencoded limit_1mb other = CallNext).
Proof.
  intros Hover. pose proof (parser_rejects_oversized env req Hover) as Hrej.
  split.
  - pose proof (oversized_run env penv req st Hover) as Hreach.
    unfold handle_request in *. rewrite application_layout in *.
    destruct (prelude_rejects env req (prelude_layers penv)) with
      (normal := inner_layers) (started := @None Z) (st := st)
      as (run & Hrun & Hstop & Hend).
    + repeat constructor.
    + unfold prelude_layers, parser_for in *.
      destruct (body req) as [b|]; [destruct (is_json (media b))|].
      * do 3 apply Exists_cons_tl. apply Exists_cons_hd. exact Hrej.
      * do 4 apply Exists_cons_tl. apply Exists_cons_hd. exact Hrej.
      * do 3 apply Exists_cons_tl. apply Exists_cons_hd. exact Hrej.
    + repeat constructor.
    + exists run. split_and!; [exact Hrun|exact Hstop|exact Hrej| |].
      * intros Hin. apply (Hend _ Hin); [|exact Hrej].
        unfold parser_for.
        destruct (body req) as [b|]; [destruct (is_json (media b))|];
          reflexivity.
      * intros Hhelmet Hcompression Hmethod.
        apply (inj (app (entered (events st)))).
        rewrite <- Hrun. apply Hreach; assumption.
  - intros other b Hb Hmedia. unfold parsed_media in Hmedia.
    apply orb_false_iff in Hmedia as [Hjson Hurl].
    split; eapply parser_skips_other; eauto.
Qed.

(** A JSON body of two million bytes posted to the job router. *)
Lemma oversized_body_is_rejected_witness :
  let run := [Helmet; Compression; Cors (corsOptions development);
              BodyJson limit_1mb; ErrorHandler] in
  entered (events (snd (handle_request healthy (application development)
                          (post "/api/jobs" ApplicationJson 2000000)
                          initial_state))) = run /\
  stopped_at_prelude run.
Proof.
  intros expected.
  destruct (oversized_body_is_rejected healthy development
              (post "/api/jobs" ApplicationJson 2000000) initial_state eq_refl)
    as ((run & Hrun & Hstop & _ & _ & Hreach) & _).
  assert (Hexp : run = expected).
  { apply Hreach; reflexivity. }
  rewrite Hexp in Hrun, Hstop. split; [exact Hrun|exact Hstop].
Defined.

(** The claim as worded fails for a body that no registered parser reads:
    two million bytes of another media type go through schema
    initialisation and sanitisation to the job router. *)
Lemma unparsed_body_reaches_router :
  let req := post "/api/jobs" OtherMedia 2000000 in
  oversized req = true /\
  ~ stopped_at_prelude
      (entered (events (snd (handle_request healthy (application development)
                               req initial_state)))).
Proof.
  split; [reflexivity|]. intros H.
  assert (Hin : SchemaInit ∈
                entered (events (snd (handle_request healthy
                  (application development)
                  (post "/api/jobs" OtherMedia 2000000) initial_state)))).
  { vm_compute. do 6 apply list_elem_of_further. apply list_elem_of_here. }
  unfold stopped_at_prelude in H. rewrite Forall_forall in H.
  specialize (H SchemaInit Hin). discriminate H.
Qed.

(** ** The application at work *)

Example root_is_live :
  fst (handle_request healthy (application development) (get "/") initial_state) =
  Replied (mkResponse 200 (SuccessMessage "Backend is live on Vercel!")).
Proof. vm_compute. reflexivity. Qed.

Example unknown_path_is_not_found :
  fst (handle_request healthy (application development) (get "/nowhere")
         initial_state) =
  Replied (mkResponse 404 (Failure "Not Found")).
Proof. vm_compute. reflexivity. Qed.

Example test_db_without_database :
  let env :=
    {| createPool_throws := createPool_throws healthy;
       initTables_rejects := initTables_rejects healthy;
       connect_rejects := fun _ => Some (mkError "ECONNREFUSED" None);
       query_answer := query_answer healthy;
       middleware_does := middleware_does healthy;
       router_does := router_does healthy;
       errorHandler_does := errorHandler_does healthy;
       body_parses := body_parses healthy;
       route_matches := route_matches healthy;
       date_now := date_now healthy |} in
  let '(reply, st) :=
    handle_request env (application development) (get "/test-db") initial_state in
  reply = Replied (mkResponse 500 (Failure "Database error")) /\
  console st = ["Database query error: ECONNREFUSED"; "GET /test-db 500 3ms"] /\
  outstanding (events st) = [].
Proof. vm_compute. repeat split. Qed.

Example preflight_is_answered_by_cors :
  let req := {| method := "OPTIONS"; path := "/api/jobs"; originalUrl := "/api/jobs";
                origin := Some "http://localhost:3000"; body := None |} in
  let '(reply, st) :=
    handle_request healthy (application production) req initial_state in
  reply = Replied (mkResponse 204 (OtherJson "")) /\
  entered (events st) = [Helmet; Compression; Cors (corsOptions production)].
Proof. vm_compute. repeat split. Qed.

Example failing_office_init_still_serves_jobs :
  let '(reply, st) :=
    handle_request (failing_init OfficeController "relation locked")
      (application development) (get "/api/jobs/1") initial_state in
  reply = Replied (mkResponse 200 (OtherJson "ok")) /\
  console st = ["Failed to initialize tables: relation locked";
                "GET /api/jobs/1 200 5ms"] /\
  initialised (events st) = [OfficeController].
Proof. vm_compute. repeat split. Qed.

(** * Further properties of the module *)

(** ** [getPool()] when the factory fails *)

Lemma createPool_entries_app (a b : list Event) :
  createPool_entries (a ++ b) = createPool_entries a + createPool_entries b.
Proof. unfold createPool_entries. rewrite omap_app, length_app. reflexivity. Qed.

Section PoolRetry.

Context (env : Env).

Lemma getPool_times_shape (n : nat) :
  forall st, pool st = None ->
  forall rs st', getPool_times env n st = (rs, st') ->
  exists errs m,
    rs = ((Throw ∘ Raised <$> errs) ++ replicate m (Ok (mkPool (heap_next st))))%list /\
    createPool_entries (events st') =
      createPool_entries (events st) + List.length errs + Nat.min 1 m /\
    (forall i e, errs !! i = Some e ->
       createPool_throws env (clock st + i) = Some e) /\
    (0 < m -> createPool_throws env (clock st + List.length errs) = None) /\
    List.length errs + m = n.
Proof.
  induction n as [|n IH]; intros st Hp rs st' Hrun.
  - cbn in Hrun. injection Hrun as <- <-. exists [], 0. cbn.
    split_and!; [reflexivity|lia|intros i e Hi; discriminate|lia|reflexivity].
  - cbn [getPool_times] in Hrun. rewrite (getPool_empty env st Hp) in Hrun.
    destruct (createPool_throws env (clock st)) as [e|] eqn:Hthrow.
    + match type of Hrun with context [getPool_times env n ?s] =>
        specialize (IH s eq_refl); destruct (getPool_times env n s) as [rs1 st1]
      end.
      injection Hrun as <- <-.
      destruct (IH _ _ eq_refl) as (errs & m & -> & Hcount & Herrs & Hok & Hlen).
      cbn [events clock heap_next] in *.
      exists (e :: errs), m. split_and!.
      * reflexivity.
      * rewrite Hcount, createPool_entries_app. cbn. lia.
      * intros [|i] e' Hi; cbn in Hi.
        -- injection Hi as <-. rewrite Nat.add_0_r. exact Hthrow.
        -- replace (clock st + S i) with (S (clock st) + i) by lia.
           apply Herrs, Hi.
      * intros Hm. cbn [List.length].
        replace (clock st + S (List.length errs))
          with (S (clock st) + List.length errs) by lia.
        apply Hok, Hm.
      * cbn. lia.
    + match type of Hrun with context [getPool_times env n ?s] =>
        rewrite (getPool_times_cached env n s (mkPool (heap_next st)) eq_refl) in Hrun
      end.
      injection Hrun as <- <-. exists [], (S n). cbn [events].
      split_and!.
      * reflexivity.
      * rewrite !createPool_entries_app. cbn. lia.
      * intros i e Hi. discriminate.
      * intros _. cbn. rewrite Nat.add_0_r. exact Hthrow.
      * reflexivity.
Qed.

End PoolRetry.

(** X1: a failure of the pool factory is not cached.  Of [n] calls of
    [getPool()] the first ones throw - the i-th of them what the factory
    throws at its i-th call - and from the first success on every call
    returns the same pool; the factory is entered once per failed call and
    once more for the first success, never after it. *)
Theorem getPool_retries_until_success (env : Env) (n : nat) :
  let '(rs, st) := getPool_times env n initial_state in
  exists errs m,
    rs = ((Throw ∘ Raised <$> errs) ++ replicate m (Ok (mkPool 0)))%list /\
    List.length errs + m = n /\
    createPool_entries (events st) = List.length errs + Nat.min 1 m /\
    (forall i e, errs !! i = Some e -> createPool_throws env i = Some e) /\
    (0 < m -> createPool_throws env (List.length errs) = None).
Proof.
  destruct (getPool_times env n initial_state) as [rs st] eqn:Hrun.
  destruct (getPool_times_shape env n initial_state eq_refl rs st Hrun)
    as (errs & m & Hrs & Hcount & Herrs & Hok & Hlen).
  exists errs, m. split_and!; auto.
Qed.

(** Two failures, then a pool: five calls enter the factory three times. *)
Lemma getPool_retries_until_success_witness :
  let '(rs, st) := getPool_times (failing_pool 2) 5 initial_state in
  createPool_entries (events st) = 3 /\
  rs !! 1 = Some (Throw (mkError "ECONNREFUSED" None)) /\
  rs !! 4 = Some (Ok (mkPool 0)).
Proof.
  pose proof (getPool_retries_until_success (failing_pool 2) 5) as H.
  destruct (getPool_times (failing_pool 2) 5 initial_state) as [rs st] eqn:Hrun.
  destruct H as (errs & m & Hrs & Hlen & Hcount & _).
  vm_compute in Hrun. injection Hrun as Hrs' Hst.
  rewrite <- Hrs'. split; [|split; reflexivity].
  rewrite <- Hst. reflexivity.
Defined.

(** ** Which paths select which initialisers *)

Lemma prefix_comparable (a b p : string) :
  String.prefix a p = true -> String.prefix b p = true ->
  String.prefix a b = true \/ String.prefix b a = true.
Proof.
  revert b p. induction a as [|x a IH]; intros b p Ha Hb;
    [left; destruct b; reflexivity|].
  destruct b as [|y b]; [right; reflexivity|].
  destruct p as [|z p]; [discriminate|]. cbn in *.
  destruct (Ascii.ascii_dec x z) as [->|]; [|discriminate].
  destruct (Ascii.ascii_dec y z) as [->|]; [|discriminate].
  destruct (Ascii.ascii_dec z z) as [_|]; [|contradiction].
  eapply IH; eassumption.
Qed.

(** Two strings neither of which is the beginning of the other are not both
    the beginning of a path. *)
Lemma startsWith_exclusive (p a b : string) :
  String.prefix a b = false -> String.prefix b a = false ->
  startsWith p a = true -> startsWith p b = true -> False.
Proof.
  unfold startsWith. intros Hab Hba Ha Hb.
  destruct (prefix_comparable a b p Ha Hb); congruence.
Qed.

Lemma startsWith_concat (p q s : string) :
  String.prefix p q = true -> startsWith (q ++ s) p = true.
Proof.
  unfold startsWith. revert q. induction p as [|x p IH]; intros q Hpq;
    [destruct (q ++ s); reflexivity|].
  destruct q as [|y q]; [discriminate|].
  change (String y q ++ s) with (String y (q ++ s)).
  cbn [String.prefix] in *.
  destruct (Ascii.ascii_dec x y); [apply IH, Hpq|discriminate].
Qed.

Lemma startsWith_apart (p q s : string) :
  String.prefix p q = false -> String.prefix q p = false ->
  startsWith (q ++ s) p = false.
Proof.
  intros Hpq Hqp. destruct (startsWith (q ++ s) p) eqn:Hp; [|reflexivity].
  exfalso. apply (startsWith_exclusive (q ++ s) p q Hpq Hqp Hp).
  apply startsWith_concat. clear. induction q as [|y q IH]; [reflexivity|].
  cbn. destruct (Ascii.ascii_dec y y); [exact IH|contradiction].
Qed.

Lemma required_under_resource_prefix
    (pfx suffix : string) (cls : ControllerClass) :
  (pfx, cls) ∈ resource_prefixes ->
  required_inits (pfx ++ suffix) =
  [OfficeController; TeamController; AuthController; cls].
Proof.
  unfold resource_prefixes. intros Hin.
  unfold required_inits. rewrite selected_cases.
  repeat (apply elem_of_cons in Hin as [[= -> ->]|Hin];
          [repeat first [rewrite startsWith_concat by reflexivity
                        |rewrite startsWith_apart by reflexivity];
           reflexivity|]).
  apply not_elem_of_nil in Hin. contradiction.
Qed.

(** X2: under each of the seven resource prefixes - whatever follows the
    prefix, a slash or not - the path selects the baseline and the
    initialiser of that resource, and no other. *)
Theorem resource_path_selects_its_initialiser
    (pfx suffix : string) (cls : ControllerClass) :
  (pfx, cls) ∈ resource_prefixes ->
  required_inits (pfx ++ suffix) =
  [OfficeController; TeamController; AuthController; cls].
Proof. apply required_under_resource_prefix. Qed.

Lemma resource_path_selects_its_initialiser_witness :
  required_inits "/api/jobs-archive/2019" =
  [OfficeController; TeamController; AuthController; JobController].
Proof.
  apply (resource_path_selects_its_initialiser "/api/jobs" "-archive/2019").
  do 2 apply list_elem_of_further. apply list_elem_of_here.
Defined.

Lemma selected_at_most_one (p : string) : List.length (selected p) <= 1.
Proof.
  rewrite selected_cases.
  destruct (startsWith p "/api/organizations") eqn:H1,
    (startsWith p "/api/hiring-managers") eqn:H2,
    (startsWith p "/api/jobs") eqn:H3,
    (startsWith p "/api/job-seekers") eqn:H4,
    (startsWith p "/api/custom-fields") eqn:H5,
    (startsWith p "/api/leads") eqn:H6,
    (startsWith p "/api/tasks") eqn:H7;
    try (cbn; lia);
    exfalso;
    match goal with
    | Ha : startsWith p ?a = true, Hb : startsWith p ?b = true |- _ =>
        apply (startsWith_exclusive p a b); [reflexivity|reflexivity|exact Ha|exact Hb]
    end.
Qed.

Lemma user_tables_not_selected (p : string) : UserController ∉ required_inits p.
Proof.
  unfold required_inits. destruct (startsWith p "/api/"); [|apply not_elem_of_nil].
  rewrite selected_cases. intros Hin.
  apply elem_of_app in Hin as [Hin|Hin].
  - unfold baseline in Hin.
    repeat (apply elem_of_cons in Hin as [Hin|Hin]; [discriminate|]).
    apply not_elem_of_nil in Hin. exact Hin.
  - repeat (apply elem_of_app in Hin as [Hin|Hin];
            [destruct (startsWith p _);
             [apply list_elem_of_singleton in Hin; discriminate
             |apply not_elem_of_nil in Hin; exact Hin]|]).
    destruct (startsWith p _);
      [apply list_elem_of_singleton in Hin; discriminate
      |apply not_elem_of_nil in Hin; exact Hin].
Qed.

(** X3: whatever the path and whatever the collaborators do, one request
    enters at most four initialisers - the seven resource prefixes exclude
    one another - and never the one of the user controller, which no branch
    of the middleware names. *)
Theorem schemaInit_enters_at_most_four
    (env : Env) (req : Request) (st : State) :
  exists ran,
    initialised (events (snd (schemaInit env req st))) =
      (initialised (events st) ++ ran)%list /\
    List.length ran <= 4 /\
    UserController ∉ ran.
Proof.
  assert (Hbound : List.length (required_inits (path req)) <= 4).
  { unfold required_inits. destruct (startsWith (path req) "/api/"); [|cbn; lia].
    rewrite length_app. pose proof (selected_at_most_one (path req)).
    change (List.length baseline) with 3. lia. }
  pose proof (user_tables_not_selected (path req)) as Huser.
  assert (Hran : exists ran,
             initialised (events (snd (schemaInit env req st))) =
               (initialised (events st) ++ ran)%list /\
             ran `prefix_of` required_inits (path req)).
  { rewrite schemaInit_initialised. unfold required_inits.
    destruct (startsWith (path req) "/api/").
    - rewrite schemaInit_try_run.
      destruct (run_inits_spec env (baseline ++ selected (path req)) st)
        as (ran & Hran & Hpre & _). eauto.
    - exists []. rewrite app_nil_r. split; [reflexivity|apply prefix_nil]. }
  destruct Hran as (ran & Hran & Hpre). exists ran. split_and!.
  - exact Hran.
  - apply prefix_length in Hpre. lia.
  - intros Hin. apply Huser. destruct Hpre as [k ->].
    apply elem_of_app. left. exact Hin.
Qed.


(** ** The two tables of prefixes *)

Ltac find_in_list :=
  repeat first [apply list_elem_of_here | apply list_elem_of_further].

(** X4: the prefix table of the middleware and the mounts agree: each of
    the seven prefixes that has an initialiser of its own is the place where
    a sanitiser and the router of the same controller class are mounted. *)
Theorem initialiser_prefixes_are_mounted
    (penv : ProcessEnv) (pfx : string) (cls : ControllerClass) :
  (pfx, cls) ∈ resource_prefixes ->
  mkLayer (Prefix pfx) SanitizeInputs ∈ application penv /\
  mkLayer (Prefix pfx) (RouterMount cls) ∈ application penv.
Proof.
  rewrite application_layout.
  unfold resource_prefixes, prelude_layers, inner_layers, mount_router, use_at.
  cbn [app]. intros Hin.
  repeat (apply elem_of_cons in Hin as [[= -> ->]|Hin];
          [split; find_in_list|]).
  apply not_elem_of_nil in Hin. contradiction.
Qed.

Lemma initialiser_prefixes_are_mounted_witness :
  mkLayer (Prefix "/api/leads") (RouterMount LeadController)
    ∈ application production.
Proof.
  apply (initialiser_prefixes_are_mounted production "/api/leads" LeadController).
  unfold resource_prefixes. find_in_list.
Defined.

Lemma mount_prefixes_application (penv : ProcessEnv) :
  mount_prefixes (application penv) =
  ["/api/auth"; "/api/users"; "/api/organizations"; "/api/jobs";
   "/api/job-seekers"; "/api/hiring-managers"; "/api/custom-fields";
   "/api/leads"; "/api/tasks"; "/api/offices"; "/api/teams"].
Proof. rewrite application_layout. reflexivity. Qed.

(** X5: no path lies under two mounts: of the eleven prefixes the routers
    are mounted at, at most one is the beginning of a given path. *)
Theorem mounts_do_not_overlap
    (penv : ProcessEnv) (p1 p2 path : string) :
  p1 ∈ mount_prefixes (application penv) ->
  p2 ∈ mount_prefixes (application penv) ->
  startsWith path p1 = true -> startsWith path p2 = true ->
  p1 = p2.
Proof.
  rewrite mount_prefixes_application. intros H1 H2 Hp1 Hp2.
  repeat (apply elem_of_cons in H1 as [->|H1];
          [repeat (apply elem_of_cons in H2 as [->|H2];
                   [first [reflexivity
                          |exfalso;
                           eapply (startsWith_exclusive path);
                           [| |exact Hp1|exact Hp2]; reflexivity]|]);
           apply not_elem_of_nil in H2; contradiction|]).
  apply not_elem_of_nil in H1. contradiction.
Qed.

Lemma mounts_do_not_overlap_witness :
  "/api/job-seekers" ∈ mount_prefixes (application development) /\
  startsWith "/api/job-seekers/12" "/api/job-seekers" = true /\
  "/api/job-seekers" = "/api/job-seekers".
Proof.
  assert (Hin : "/api/job-seekers" ∈ mount_prefixes (application development))
    by (rewrite mount_prefixes_application; find_in_list).
  split_and!; [exact Hin|reflexivity|].
  apply (mounts_do_not_overlap development "/api/job-seekers" "/api/job-seekers"
           "/api/job-seekers/12" Hin Hin); reflexivity.
Defined.

(** ** Starting up *)

Lemma port_not_empty (penv : ProcessEnv) : port penv <> "".
Proof.
  unfold port, env_truthy. destruct (penv !! "PORT") as [v|]; [|discriminate].
  cbn [default]. destruct (String.eqb_spec v ""); cbn; [discriminate|assumption].
Qed.

(** X6: the module calls [app.listen] only outside production, once, with
    [PORT] or - when that is unset or empty - 8080, and never in
    production.  When the call throws, as it does for a port out of range,
    the load ends with what it threw and nothing is exported; otherwise the
    application is.  The load itself writes no line about the port: that
    line is written by the callback handed to [app.listen]. *)
Theorem module_listens_only_outside_production
    (ld : Loader) (penv0 : ProcessEnv) (st : State) :
  let penv := loaded_env ld penv0 in
  let st' := snd (load_module ld penv0 st) in
  (forall name, require_throws ld name = None) ->
  listening (events st') =
    (listening (events st) ++ if is_production penv then [] else [port penv])%list /\
  port penv <> "" /\
  (env_truthy penv "PORT" = false -> port penv = "8080") /\
  fst (load_module ld penv0 st) =
    (if is_production penv then Ok (application penv)
     else match listen_throws ld (port penv) with
          | Some t => Throw t
          | None => Ok (application penv)
          end) /\
  console st' =
    (console st ++ dotenv_prints ld ++
       if is_production penv && (0 <? List.length (missingEnvVars penv))%nat
       then missing_report (missingEnvVars penv) else [])%list /\
  (forall st0,
     listening_callback penv st0 =
     (Ok tt, console_write ("Server running on port " ++ port penv) st0)).
Proof.
  intros penv st' Hfound. subst st'.
  rewrite load_module_run, !(first_thrown_none ld _ Hfound). cbn zeta.
  fold penv. rewrite check_env_run. cbn [snd].
  split_and!.
  - destruct (is_production penv); cbn [andb fst snd];
      [destruct (0 <? List.length (missingEnvVars penv))%nat|];
      cbn [events console_writes emit]; unfold listening;
      rewrite ?omap_app; cbn; rewrite ?app_nil_r; reflexivity.
  - apply port_not_empty.
  - unfold port. intros ->. reflexivity.
  - destruct (is_production penv); reflexivity.
  - destruct (is_production penv); cbn [andb fst snd];
      [destruct (0 <? List.length (missingEnvVars penv))%nat|];
      cbn [console console_writes emit]; rewrite <- ?app_assoc, ?app_nil_r;
      reflexivity.
  - reflexivity.
Qed.

(** Outside production with [PORT=70000]: [app.listen] is called and
    throws, so the load throws; in production nothing listens. *)
Lemma module_listens_only_outside_production_witness :
  let penv : ProcessEnv := {[ "PORT" := "70000" ]} in
  listening (events (snd (load_module strict_loader penv initial_state))) =
    ["70000"] /\
  fst (load_module strict_loader penv initial_state) =
    Throw (mkError "options.port should be >= 0 and < 65536" None) /\
  console (snd (load_module strict_loader penv initial_state)) = [] /\
  listening (events (snd (load_module strict_loader production initial_state))) = [].
Proof.
  intros penv.
  destruct (module_listens_only_outside_production strict_loader penv
              initial_state (fun _ => eq_refl))
    as (Hlisten & _ & _ & Hres & Hcon & _).
  destruct (module_listens_only_outside_production strict_loader production
              initial_state (fun _ => eq_refl))
    as (Hprod & _).
  rewrite Hlisten, Hres, Hcon, Hprod. vm_compute. repeat split.
Defined.

(** X7: the start-up check reports exactly the required variables that are
    unset or empty - an empty value counts as missing - and when there is
    none, loading the module in production writes nothing of its own - the
    console only receives what [dotenv] prints - and changes nothing else,
    provided every module it requires can be loaded. *)
Theorem configured_production_start_is_silent
    (ld : Loader) (penv0 : ProcessEnv) (st : State) :
  let penv := loaded_env ld penv0 in
  (forall v, v ∈ missingEnvVars penv <->
     v ∈ requiredEnvVars /\ unset_or_empty penv v) /\
  (is_production penv = true -> missingEnvVars penv = [] ->
   (forall name, require_throws ld name = None) ->
   load_module ld penv0 st =
     (Ok (application penv), console_writes (dotenv_prints ld) st)).
Proof.
  intros penv. split; [apply missing_characterised|].
  intros Hprod Hnone Hfound.
  rewrite load_module_run, !(first_thrown_none ld _ Hfound). cbn zeta.
  fold penv. rewrite check_env_run, Hprod, Hnone. reflexivity.
Qed.

Lemma configured_production_start_is_silent_witness :
  load_module dotenv_loader configured initial_state =
    (Ok (application configured),
     console_writes ["[dotenv] injecting env (1) from .env"] initial_state).
Proof.
  assert (Henv : loaded_env dotenv_loader configured = configured)
    by (vm_compute; reflexivity).
  destruct (configured_production_start_is_silent dotenv_loader configured
              initial_state) as [_ Hload].
  rewrite Henv in Hload. apply Hload.
  - vm_compute. reflexivity.
  - vm_compute. reflexivity.
  - intros name. reflexivity.
Defined.

(** ** The allow-list *)

(** X8: [ALLOWED_ORIGINS] can only add to the allow-list: the four built-in
    origins are allowed in every environment, and when the variable is unset
    or empty production allows exactly these four. *)
Theorem builtin_origins_stay_allowed (penv : ProcessEnv) (o : string) :
  (o ∈ allowedOrigins ->
   isOriginAllowed o (cors_origin (corsOptions penv)) = true) /\
  (is_production penv = true -> env_truthy penv "ALLOWED_ORIGINS" = false ->
   isOriginAllowed o (cors_origin (corsOptions penv)) =
   bool_decide (o ∈ allowedOrigins)).
Proof.
  unfold corsOptions, allOrigins, additionalOrigins. cbn [cors_origin]. split.
  - intros Hin. destruct (is_production penv); [|reflexivity].
    cbn [isOriginAllowed]. rewrite existsb_eqb_elem.
    apply bool_decide_eq_true, elem_of_app. left. exact Hin.
  - intros -> ->. cbn [isOriginAllowed]. rewrite app_nil_r.
    apply existsb_eqb_elem.
Qed.

Lemma builtin_origins_stay_allowed_witness :
  isOriginAllowed "https://ats-orcin.vercel.app"
    (cors_origin (corsOptions configured)) = true /\
  isOriginAllowed "https://other.example"
    (cors_origin (corsOptions configured)) = false.
Proof.
  split.
  - destruct (builtin_origins_stay_allowed configured
                "https://ats-orcin.vercel.app") as [H _].
    apply H. unfold allowedOrigins. find_in_list.
  - destruct (builtin_origins_stay_allowed configured "https://other.example")
      as [_ H].
    rewrite H by (vm_compute; reflexivity). vm_compute. reflexivity.
Defined.

Lemma split_comma_length (s : string) :
  List.length (split_comma s) = S (commas s).
Proof.
  induction s as [|c s IH]; [reflexivity|]. cbn [split_comma commas].
  pose proof (split_comma_nonempty s) as Hne.
  destruct (split_comma s) as [|piece pieces]; [contradiction|].
  destruct (Ascii.eqb c ","%char); cbn in *; lia.
Qed.

Lemma split_comma_pieces (s : string) :
  Forall (fun piece => commas piece = 0) (split_comma s).
Proof.
  induction s as [|c s IH]; [repeat constructor|]. cbn [split_comma].
  pose proof (split_comma_nonempty s) as Hne.
  destruct (split_comma s) as [|piece pieces]; [contradiction|].
  destruct (Ascii.eqb c ","%char) eqn:Hc.
  - constructor; [reflexivity|exact IH].
  - inversion IH as [|? ? Hpiece Hpieces]; subst.
    constructor; [cbn; rewrite Hc; exact Hpiece|exact Hpieces].
Qed.

(** X9: the additional origins are the pieces between the commas of
    [ALLOWED_ORIGINS], one more than it has commas and none with a comma
    in it; an unset or empty variable contributes no origin, not even the
    empty one. *)
Theorem additional_origins_are_the_comma_pieces (penv : ProcessEnv) :
  List.length (additionalOrigins penv) =
    (if env_truthy penv "ALLOWED_ORIGINS"
     then S (commas (default "" (penv !! "ALLOWED_ORIGINS")))
     else 0) /\
  Forall (fun piece => commas piece = 0) (additionalOrigins penv).
Proof.
  unfold additionalOrigins.
  destruct (env_truthy penv "ALLOWED_ORIGINS");
    [split; [apply split_comma_length|apply split_comma_pieces]
    |split; [reflexivity|constructor]].
Qed.

(** ** The access logger *)

Section AccessLogger.

Context (env : Env).

(** Only the access logger sets the start time that the [finish] listener
    reads. *)
Lemma run_layer_started h err started req (st : State) :
  snd (fst (run_layer env h err started req st)) =
  match h with
  | AccessLog => Some (date_now env (clock st))
  | _ => started
  end.
Proof.
  unfold run_layer.
  destruct h; try (destruct (settle _ _ st); reflexivity); [reflexivity|].
  destruct err; [reflexivity|]. destruct (settle _ _ st); reflexivity.
Qed.

Lemma finish_logged (start : Z) req r (st : State) :
  finish env (Some start) req r st =
  (Replied r,
   console_write (access_line req r (date_now env (clock st) - start)%Z)
     (snd (tick st))).
Proof. reflexivity. Qed.

Lemma finish_replied started req r0 (st : State) r st' :
  finish env started req r0 st = (Replied r, st') ->
  r = r0 /\
  (is_Some started ->
   exists d pre, console st' = (pre ++ [access_line req r d])%list).
Proof.
  destruct started as [start|].
  - rewrite finish_logged. intros [= <- <-]. split; [reflexivity|].
    intros _. eexists _, (console st). reflexivity.
  - cbn. intros [= <- <-]. split; [reflexivity|]. intros [? ?]. discriminate.
Qed.

(** Once the logger has run, whatever answers the request is logged. *)
Lemma dispatch_logged (layers : list Layer) :
  forall err started req st r st' run,
    dispatch env layers err started req st = (Replied r, st') ->
    entered (events st') = (entered (events st) ++ run)%list ->
    is_Some started \/ AccessLog ∈ run ->
    exists d pre, console st' = (pre ++ [access_line req r d])%list.
Proof.
  induction layers as [|l rest IH]; intros err started req st r st' run;
    cbn [dispatch].
  - intros Hfin Hrun Hwhy.
    pose proof (finish_events env started req (finalhandler err req) st) as Hev.
    rewrite Hfin in Hev. cbn [snd] in Hev. rewrite Hev in Hrun.
    rewrite <- (app_nil_r (entered (events st))) in Hrun at 1.
    apply app_inv_head in Hrun. subst run.
    destruct (finish_replied _ _ _ _ _ _ Hfin) as [-> Hlog].
    apply Hlog. destruct Hwhy as [?|Hin]; [assumption|].
    apply not_elem_of_nil in Hin. contradiction.
  - destruct (negb (layer_matches env l req)); [apply IH|].
    destruct (negb (Bool.eqb _ _)); [apply IH|].
    pose proof (entered_run_layer env (handler l) err started req
                  (emit (EvEnter (handler l)) st)) as Hl.
    pose proof (run_layer_started (handler l) err started req
                  (emit (EvEnter (handler l)) st)) as Hstart.
    destruct (run_layer env (handler l) err started req _)
      as [[o started'] st1].
    cbn [fst snd emit events] in Hl, Hstart. rewrite entered_app in Hl. cbn in Hl.
    intros Hdisp Hrun Hwhy.
    assert (Hstarted : forall run',
               run = handler l :: run' ->
               is_Some started' \/ AccessLog ∈ run').
    { intros run' ->. destruct Hwhy as [Hs|Hin].
      - left. rewrite Hstart. destruct (handler l); eauto.
      - apply elem_of_cons in Hin as [Hh|Hin]; [|right; exact Hin].
        left. rewrite Hstart, <- Hh. eauto. }
    destruct o.
    + destruct (dispatch_entered env rest None started' req st1)
        as (run' & Hrun' & _).
      rewrite Hdisp in Hrun'. cbn [snd] in Hrun'.
      rewrite Hrun', Hl, <- app_assoc in Hrun. apply app_inv_head in Hrun.
      eapply IH; [exact Hdisp|exact Hrun'|apply Hstarted; symmetry; exact Hrun].
    + destruct (dispatch_entered env rest (Some e) started' req st1)
        as (run' & Hrun' & _).
      rewrite Hdisp in Hrun'. cbn [snd] in Hrun'.
      rewrite Hrun', Hl, <- app_assoc in Hrun. apply app_inv_head in Hrun.
      eapply IH; [exact Hdisp|exact Hrun'|apply Hstarted; symmetry; exact Hrun].
    + destruct (finish_replied _ _ _ _ _ _ Hdisp) as [-> Hlog].
      pose proof (finish_events env started' req r0 st1) as Hev.
      rewrite Hdisp in Hev. cbn [snd] in Hev.
      rewrite Hev, Hl in Hrun. apply app_inv_head in Hrun.
      apply Hlog. destruct (Hstarted [] (eq_sym Hrun)) as [?|Hin]; [assumption|].
      apply not_elem_of_nil in Hin. contradiction.
    + discriminate.
Qed.

End AccessLogger.

(** X10: every response that is sent after the access logger has run is
    logged: the last line on the console is then the method, the original
    URL and the status code of that response, followed by a duration in
    milliseconds. *)
Theorem answered_requests_are_logged
    (env : Env) (penv : ProcessEnv) (req : Request) (st st' : State)
    (r : Response) (run : list Handler) :
  handle_request env (application penv) req st = (Replied r, st') ->
  entered (events st') = (entered (events st) ++ run)%list ->
  AccessLog ∈ run ->
  exists d pre, console st' = (pre ++ [access_line req r d])%list.
Proof.
  intros Hreq Hrun Hin.
  eapply dispatch_logged; [exact Hreq|exact Hrun|right; exact Hin].
Qed.

Lemma answered_requests_are_logged_witness :
  exists d pre,
    console (snd (handle_request (failing_init OfficeController "boom")
                    (application development) (get "/api/jobs/1") initial_state)) =
    (pre ++ [access_line (get "/api/jobs/1") (mkResponse 200 (OtherJson "ok")) d])%list.
Proof.
  assert (Hreply : fst (handle_request (failing_init OfficeController "boom")
                          (application development) (get "/api/jobs/1")
                          initial_state) =
                   Replied (mkResponse 200 (OtherJson "ok")))
    by (vm_compute; reflexivity).
  assert (Hrun : entered (events (snd (handle_request
                          (failing_init OfficeController "boom")
                          (application development) (get "/api/jobs/1")
                          initial_state))) =
                 [Helmet; Compression; Cors (corsOptions development);
                  BodyJson limit_1mb; BodyUrlencoded limit_1mb; AccessLog;
                  SchemaInit; SanitizeInputs; RouterMount JobController])
    by (vm_compute; reflexivity).
  destruct (handle_request (failing_init OfficeController "boom")
              (application development) (get "/api/jobs/1") initial_state)
    as [reply st'] eqn:Hreq.
  cbn [fst snd] in *. subst reply.
  apply (answered_requests_are_logged _ _ _ _ _ _ _ Hreq Hrun).
  find_in_list.
Defined.

(** ** What has run before a router is reached *)

Section BeforeTheRouters.

Context (env : Env).

(** Through layers that are registered for every path, a request either
    passes them all, in order, or stops among them, the error handler
    apart. *)
Lemma through_global_layers (req : Request) (pre : list Layer) :
  Forall (fun l => mount l = AnyPath /\ is_error_handler (handler l) = false) pre ->
  forall normal,
    Forall (fun l => is_error_handler (handler l) = false) normal ->
    forall started st,
    exists run,
      entered (events (snd (dispatch env (pre ++ normal ++ [use ErrorHandler])
                              None started req st))) =
        (entered (events st) ++ run)%list /\
      ((handler <$> pre) `prefix_of` run \/
       Forall (fun h => h ∈ handler <$> pre \/ h = ErrorHandler) run).
Proof.
  induction 1 as [|l pre [Hmount Hnoerr] Hrest IH]; intros normal Hnormal started st.
  { destruct (dispatch_entered env (normal ++ [use ErrorHandler]) None started req st)
      as (run & Hrun & _).
    exists run. split; [exact Hrun|]. left. apply prefix_nil. }
  cbn [app dispatch]. unfold layer_matches. rewrite Hmount, Hnoerr.
  cbn [negb pending Bool.eqb].
  pose proof (entered_run_layer env (handler l) None started req
                (emit (EvEnter (handler l)) st)) as Hl.
  destruct (run_layer env (handler l) None started req _)
    as [[o started'] st1].
  cbn [snd emit events] in Hl. rewrite entered_app in Hl. cbn in Hl.
  destruct o.
  - destruct (IH normal Hnormal started' st1) as (run & Hrun & Hcases).
    exists (handler l :: run). rewrite Hrun, Hl, <- app_assoc.
    split; [reflexivity|]. destruct Hcases as [Hpre|Hall].
    + left. cbn. apply prefix_cons, Hpre.
    + right. constructor; [left; apply list_elem_of_here|].
      eapply Forall_impl; [exact Hall|]. intros h [Hin| ->]; [left|right; reflexivity].
      cbn. apply list_elem_of_further, Hin.
  - rewrite app_assoc, error_goes_to_errorHandler.
    + exists [handler l; ErrorHandler]. rewrite Hl, <- app_assoc.
      split; [reflexivity|]. right.
      constructor; [left; apply list_elem_of_here|].
      constructor; [right; reflexivity|constructor].
    + apply Forall_app. split; [|exact Hnormal].
      eapply Forall_impl; [exact Hrest|]. intros l' [_ Hp]. exact Hp.
  - exists [handler l]. rewrite finish_events, Hl. split; [reflexivity|]. right.
    constructor; [left; apply list_elem_of_here|constructor].
  - exists [handler l]. cbn [snd]. rewrite Hl. split; [reflexivity|]. right.
    constructor; [left; apply list_elem_of_here|constructor].
Qed.

End BeforeTheRouters.

Lemma application_globals_first (penv : ProcessEnv) :
  application penv =
  (global_layers penv ++ drop 2 inner_layers ++ [use ErrorHandler])%list.
Proof. rewrite application_layout. reflexivity. Qed.

(** X11: nothing behind the global layers is reached without them: a request
    that gets to a sanitiser, a router, a probe or [notFound] has gone, in
    this order, through helmet, compression, CORS, the two body parsers, the
    access logger and the schema initialisation. *)
Theorem routers_come_after_the_global_layers
    (env : Env) (penv : ProcessEnv) (req : Request) (st : State) :
  exists run,
    entered (events (snd (handle_request env (application penv) req st))) =
      (entered (events st) ++ run)%list /\
    (forall h, h ∈ run -> is_inner h = true ->
       [Helmet; Compression; Cors (corsOptions penv); BodyJson limit_1mb;
        BodyUrlencoded limit_1mb; AccessLog; SchemaInit] `prefix_of` run).
Proof.
  unfold handle_request. rewrite application_globals_first.
  destruct (through_global_layers env req (global_layers penv)) with
    (normal := drop 2 inner_layers) (started := @None Z) (st := st)
    as (run & Hrun & Hcases).
  - repeat constructor.
  - repeat constructor.
  - exists run. split; [exact Hrun|]. intros h Hin Hinner.
    destruct Hcases as [Hpre|Hall]; [exact Hpre|].
    rewrite Forall_forall in Hall. destruct (Hall h Hin) as [Hglobal| ->];
      [|discriminate].
    cbn in Hglobal.
    repeat (apply elem_of_cons in Hglobal as [->|Hglobal]; [discriminate|]).
    apply not_elem_of_nil in Hglobal. contradiction.
Qed.

Lemma routers_come_after_the_global_layers_witness :
  [Helmet; Compression; Cors (corsOptions development); BodyJson limit_1mb;
   BodyUrlencoded limit_1mb; AccessLog; SchemaInit]
    `prefix_of`
    entered (events (snd (handle_request healthy (application development)
                            (get "/api/jobs/1") initial_state))).
Proof.
  destruct (routers_come_after_the_global_layers healthy development
              (get "/api/jobs/1") initial_state) as (run & Hrun & Hfirst).
  assert (Hexp : run = [Helmet; Compression; Cors (corsOptions development);
                        BodyJson limit_1mb; BodyUrlencoded limit_1mb; AccessLog;
                        SchemaInit; SanitizeInputs; RouterMount JobController]).
  { apply (inj (app (entered (events initial_state)))).
    rewrite <- Hrun. vm_compute. reflexivity. }
  rewrite Hrun. change (entered (events initial_state)) with (@nil Handler).
  cbn [app]. apply (Hfirst (RouterMount JobController)); [|reflexivity].
  rewrite Hexp. find_in_list.
Defined.

(** ** The sanitiser in front of every router *)

Section Sanitised.

Context (env : Env).

Lemma behind_sanitiser_nil : behind_sanitiser [].
Proof. intros [|? ?] cls after H; discriminate. Qed.

Lemma behind_sanitiser_plain (h : Handler) (run : list Handler) :
  (forall cls, h <> RouterMount cls) ->
  behind_sanitiser run -> behind_sanitiser (h :: run).
Proof.
  intros Hh Hrun [|x before] cls after Heq; cbn in Heq.
  - injection Heq as -> _. destruct (Hh cls eq_refl).
  - injection Heq as <- Heq. destruct (Hrun _ _ _ Heq) as [b ->].
    exists (h :: b). reflexivity.
Qed.

Lemma behind_sanitiser_pair (cls : ControllerClass) (run : list Handler) :
  behind_sanitiser run ->
  behind_sanitiser (SanitizeInputs :: RouterMount cls :: run).
Proof.
  intros Hrun [|x [|y before]] cls' after Heq; cbn in Heq.
  - discriminate.
  - injection Heq as <- _ _. exists []. reflexivity.
  - injection Heq as <- <- Heq. destruct (Hrun _ _ _ Heq) as [b ->].
    exists (SanitizeInputs :: RouterMount cls :: b). reflexivity.
Qed.

Lemma sanitised_dispatch (layers : list Layer) :
  sanitised_stack layers ->
  forall err started req st,
  exists run,
    entered (events (snd (dispatch env layers err started req st))) =
      (entered (events st) ++ run)%list /\
    behind_sanitiser run.
Proof.
  induction 1 as [|l rest Hplain _ IH|m cls rest _ IH];
    intros err started req st.
  - exists []. cbn [dispatch]. rewrite finish_events, app_nil_r.
    split; [reflexivity|apply behind_sanitiser_nil].
  - cbn [dispatch].
    destruct (negb (layer_matches env l req)); [apply IH|].
    destruct (negb (Bool.eqb _ _)); [apply IH|].
    pose proof (entered_run_layer env (handler l) err started req
                  (emit (EvEnter (handler l)) st)) as Hl.
    destruct (run_layer env (handler l) err started req _)
      as [[o started'] st1].
    cbn [snd emit events] in Hl. rewrite entered_app in Hl. cbn in Hl.
    destruct o.
    + destruct (IH None started' req st1) as (run & Hrun & Hok).
      exists (handler l :: run). rewrite Hrun, Hl, <- app_assoc.
      split; [reflexivity|apply behind_sanitiser_plain; assumption].
    + destruct (IH (Some e) started' req st1) as (run & Hrun & Hok).
      exists (handler l :: run). rewrite Hrun, Hl, <- app_assoc.
      split; [reflexivity|apply behind_sanitiser_plain; assumption].
    + exists [handler l]. rewrite finish_events, Hl. split; [reflexivity|].
      apply behind_sanitiser_plain; [assumption|apply behind_sanitiser_nil].
    + exists [handler l]. cbn [snd]. rewrite Hl. split; [reflexivity|].
      apply behind_sanitiser_plain; [assumption|apply behind_sanitiser_nil].
  - cbn [dispatch]. cbn [handler].
    change (layer_matches env (mkLayer m (RouterMount cls)) req)
      with (layer_matches env (mkLayer m SanitizeInputs) req).
    destruct (layer_matches env (mkLayer m SanitizeInputs) req);
      cbn [negb]; [|apply IH].
    cbn [is_error_handler]. destruct err as [e|]; cbn [pending Bool.eqb negb];
      [apply IH|].
    pose proof (entered_run_layer env SanitizeInputs None started req
                  (emit (EvEnter SanitizeInputs) st)) as Hs.
    destruct (run_layer env SanitizeInputs None started req _)
      as [[o started1] st1].
    cbn [snd emit events] in Hs. rewrite entered_app in Hs. cbn in Hs.
    destruct o.
    + pose proof (entered_run_layer env (RouterMount cls) None started1 req
                    (emit (EvEnter (RouterMount cls)) st1)) as Hr.
      destruct (run_layer env (RouterMount cls) None started1 req _)
        as [[o2 started2] st2].
      cbn [snd emit events] in Hr. rewrite entered_app, Hs, <- app_assoc in Hr.
      cbn in Hr.
      destruct o2.
      * destruct (IH None started2 req st2) as (run & Hrun & Hok).
        exists (SanitizeInputs :: RouterMount cls :: run).
        rewrite Hrun, Hr, <- app_assoc.
        split; [reflexivity|apply behind_sanitiser_pair, Hok].
      * destruct (IH (Some e) started2 req st2) as (run & Hrun & Hok).
        exists (SanitizeInputs :: RouterMount cls :: run).
        rewrite Hrun, Hr, <- app_assoc.
        split; [reflexivity|apply behind_sanitiser_pair, Hok].
      * exists [SanitizeInputs; RouterMount cls]. rewrite finish_events, Hr.
        split; [reflexivity|apply behind_sanitiser_pair, behind_sanitiser_nil].
      * exists [SanitizeInputs; RouterMount cls]. cbn [snd]. rewrite Hr.
        split; [reflexivity|apply behind_sanitiser_pair, behind_sanitiser_nil].
    + destruct (IH (Some e) started1 req st1) as (run & Hrun & Hok).
      exists (SanitizeInputs :: run). rewrite Hrun, Hs, <- app_assoc.
      split; [reflexivity|].
      apply behind_sanitiser_plain; [intros ?; discriminate|exact Hok].
    + exists [SanitizeInputs]. rewrite finish_events, Hs. split; [reflexivity|].
      apply behind_sanitiser_plain;
        [intros ?; discriminate|apply behind_sanitiser_nil].
    + exists [SanitizeInputs]. cbn [snd]. rewrite Hs. split; [reflexivity|].
      apply behind_sanitiser_plain;
        [intros ?; discriminate|apply behind_sanitiser_nil].
Qed.

End Sanitised.

Lemma application_is_sanitised (penv : ProcessEnv) :
  sanitised_stack (application penv).
Proof.
  rewrite application_layout.
  unfold prelude_layers, inner_layers, mount_router, use, use_at, get_at.
  cbn [app].
  repeat first
    [ apply sanitised_pair
    | apply sanitised_plain; [intros ?; discriminate|]
    | apply sanitised_nil ].
Qed.

(** X12: no router is handed a request that [sanitizeInputs] has not just
    passed on: whenever a router mount is entered, the layer entered right
    before it is a sanitiser, whatever the collaborators and the path
    matching do. *)
Theorem routers_sit_behind_the_sanitiser
    (env : Env) (penv : ProcessEnv) (req : Request) (st : State) :
  exists run,
    entered (events (snd (handle_request env (application penv) req st))) =
      (entered (events st) ++ run)%list /\
    forall before cls after,
      run = (before ++ RouterMount cls :: after)%list ->
      exists b, before = (b ++ [SanitizeInputs])%list.
Proof.
  apply (sanitised_dispatch env (application penv) (application_is_sanitised penv)).
Qed.

(** ** Requests that do not need the database *)

Lemma effects_app (a b : list Event) :
  effects (a ++ b) = (effects a ++ effects b)%list.
Proof. apply List.filter_app. Qed.

Section NoDatabase.

Context (env : Env).

(** A layer that does not need the database leaves the pool, the heap and
    the record of effects as they are. *)
Lemma run_layer_without_database h err started req (st : State) :
  needs_database h req = false ->
  let st' := snd (run_layer env h err started req st) in
  pool st' = pool st /\ heap_next st' = heap_next st /\
  effects (events st') = effects (events st).
Proof.
  intros Hneeds. unfold run_layer, settle.
  destruct h; try discriminate; cbn [run_handler];
    try (cbn; repeat split; fail).
  - rewrite schemaInit_run. cbn [needs_database] in Hneeds. rewrite Hneeds.
    cbn. repeat split.
  - destruct err; cbn; repeat split.
Qed.

Lemma dispatch_without_database (req : Request) (layers : list Layer) :
  Forall (fun l => layer_matches env l req = true ->
                   needs_database (handler l) req = false) layers ->
  forall err started st,
    let st' := snd (dispatch env layers err started req st) in
    pool st' = pool st /\ heap_next st' = heap_next st /\
    effects (events st') = effects (events st).
Proof.
  induction 1 as [|l rest Hl _ IH]; intros err started st; cbn [dispatch].
  - unfold finish. destruct started; cbn; repeat split.
  - destruct (layer_matches env l req) eqn:Hm; cbn [negb]; [|apply IH].
    destruct (negb (Bool.eqb _ _)); [apply IH|].
    specialize (Hl eq_refl).
    pose proof (run_layer_without_database (handler l) err started req
                  (emit (EvEnter (handler l)) st) Hl) as Hrun.
    destruct (run_layer env (handler l) err started req _)
      as [[o started'] st1].
    cbn [snd emit events pool heap_next] in Hrun.
    rewrite effects_app in Hrun. cbn in Hrun. rewrite app_nil_r in Hrun.
    destruct Hrun as (Hp & Hh & He).
    destruct o.
    + destruct (IH None started' st1) as (Hp' & Hh' & He').
      cbn zeta. rewrite Hp', Hh', He'. auto.
    + destruct (IH (Some e) started' st1) as (Hp' & Hh' & He').
      cbn zeta. rewrite Hp', Hh', He'. auto.
    + unfold finish. destruct started'; cbn; auto.
    + cbn. auto.
Qed.

End NoDatabase.

(** X14: a request outside [/api/] that matches no mount and is not the
    [/test-db] probe - the root route, an unknown path - is served without
    the database: it neither creates nor reads the pool, builds no
    controller and calls no collaborator of the database layer. *)
Theorem requests_outside_api_leave_the_database_alone
    (env : Env) (penv : ProcessEnv) (req : Request) (st : State) :
  startsWith (path req) "/api/" = false ->
  (forall p, p ∈ mount_prefixes (application penv) ->
     route_matches env (Prefix p) req = false) ->
  route_matches env (GetExact "/test-db") req = false ->
  let st' := snd (handle_request env (application penv) req st) in
  pool st' = pool st /\ heap_next st' = heap_next st /\
  effects (events st') = effects (events st).
Proof.
  intros Hapi Hprefix Hprobe. unfold handle_request.
  rewrite mount_prefixes_application in Hprefix.
  apply dispatch_without_database. rewrite application_layout.
  unfold prelude_layers, inner_layers, mount_router, use, use_at, get_at.
  cbn [app].
  repeat (constructor;
          [unfold layer_matches; cbn [mount handler needs_database];
           intros Hm;
           first [reflexivity | exact Hapi
                 | rewrite Hprefix in Hm by find_in_list; discriminate
                 | rewrite Hprobe in Hm; discriminate]|]).
  constructor.
Qed.

Lemma requests_outside_api_leave_the_database_alone_witness :
  let st' := snd (handle_request (failing_pool 1) (application development)
                    (get "/") initial_state) in
  pool st' = None /\ effects (events st') = [].
Proof.
  destruct (requests_outside_api_leave_the_database_alone (failing_pool 1)
              development (get "/") initial_state) as (Hp & _ & He).
  - reflexivity.
  - intros p Hp. rewrite mount_prefixes_application in Hp.
    repeat (apply elem_of_cons in Hp as [->|Hp]; [reflexivity|]).
    apply not_elem_of_nil in Hp. contradiction.
  - reflexivity.
  - cbn zeta. rewrite Hp, He. split; reflexivity.
Defined.

(** ** A mount without a pool *)

Section MountFailure.

Context (env : Env).


End MountFailure.



(** ** Requests that the prelude answers or refuses *)

Section Blocked.

Context (env : Env).

(** A prelude layer that does not pass the request on keeps it from
    everything that is registered after the prelude. *)
Lemma prelude_blocks (req : Request) (pre : list Layer) :
  Forall (fun l => mount l = AnyPath /\ is_prelude (handler l) = true) pre ->
  Exists (fun l => blocks env (handler l) req) pre ->
  forall normal,
    Forall (fun l => is_error_handler (handler l) = false) normal ->
    forall started st,
    exists run,
      entered (events (snd (dispatch env (pre ++ normal ++ [use ErrorHandler])
                              None started req st))) =
        (entered (events st) ++ run)%list /\
      stopped_at_prelude run.
Proof.
  induction 1 as [|l pre [Hmount Hpre] Hrest IH];
    intros Hex normal Hnormal started st.
  { inversion Hex. }
  cbn [app dispatch]. unfold layer_matches. rewrite Hmount.
  rewrite (prelude_not_error _ Hpre). cbn [negb pending Bool.eqb].
  pose proof (entered_run_layer env (handler l) None started req
                (emit (EvEnter (handler l)) st)) as Hl.
  destruct (run_layer env (handler l) None started req _)
    as [[o started'] st1] eqn:Hrun.
  cbn [snd emit events] in Hl. rewrite entered_app in Hl. cbn in Hl.
  assert (Hhere : is_prelude (handler l) || is_error_handler (handler l) = true)
    by (rewrite Hpre; reflexivity).
  destruct o.
  - assert (Hex' : Exists (fun l => blocks env (handler l) req) pre).
    { inversion Hex as [? ? Hblock|? ? Hlater]; subst; [|exact Hlater].
      specialize (Hblock None started (emit (EvEnter (handler l)) st)).
      rewrite Hrun in Hblock. destruct (Hblock eq_refl). }
    destruct (IH Hex' normal Hnormal started' st1) as (run & Hr & Hstop).
    exists (handler l :: run). rewrite Hr, Hl, <- app_assoc.
    split; [reflexivity|constructor; assumption].
  - rewrite app_assoc, error_goes_to_errorHandler.
    + exists [handler l; ErrorHandler]. rewrite Hl, <- app_assoc.
      split; [reflexivity|].
      constructor; [exact Hhere|constructor; [reflexivity|constructor]].
    + apply Forall_app. split; [|exact Hnormal].
      eapply Forall_impl; [exact Hrest|]. intros l' [_ Hp].
      apply prelude_not_error, Hp.
  - exists [handler l]. rewrite finish_events, Hl.
    split; [reflexivity|constructor; [exact Hhere|constructor]].
  - exists [handler l]. cbn [snd]. rewrite Hl.
    split; [reflexivity|constructor; [exact Hhere|constructor]].
Qed.

Lemma cors_blocks_preflight (o : CorsOptions) (req : Request) :
  method req = "OPTIONS" -> blocks env (Cors o) req.
Proof.
  intros Hm err started st. unfold run_layer, settle.
  cbn [run_handler mret M_ret fst]. unfold corsMiddleware. rewrite Hm.
  destruct err; discriminate.
Qed.

Lemma parser_blocks_malformed (req : Request) (b : Body) (e : JsError) :
  body req = Some b -> parsed_media (media b) = true ->
  body_parses env req = Some e ->
  blocks env (parser_for req) req.
Proof.
  unfold parser_for, parsed_media. intros Hb Hmedia Hparse err started st.
  rewrite Hb.
  destruct (media b) eqn:Hm; try discriminate; cbn [is_json];
    unfold run_layer, settle; cbn [run_handler mret M_ret fst];
    unfold bodyParser; rewrite Hb, Hm, Hparse; cbn [is_json is_urlencoded negb];
    destruct (limit_1mb <? size b)%N; destruct err; discriminate.
Qed.

End Blocked.

(** X16: a CORS preflight, and a JSON or URL-encoded body that does not
    parse, go no further than the prelude: the preflight is answered by the
    CORS layer and the malformed body is refused by its parser, so that
    neither reaches the access logger, the schema initialisation, a
    sanitiser, a router or a probe - nor the database. *)
Theorem preflights_and_malformed_bodies_stop_early
    (env : Env) (penv : ProcessEnv) (req : Request) (st : State) :
  (method req = "OPTIONS" \/
   exists b e, body req = Some b /\ parsed_media (media b) = true /\
               body_parses env req = Some e) ->
  exists run,
    entered (events (snd (handle_request env (application penv) req st))) =
      (entered (events st) ++ run)%list /\
    stopped_at_prelude run.
Proof.
  intros Hwhy. unfold handle_request. rewrite application_layout.
  apply prelude_blocks; [repeat constructor| |repeat constructor].
  unfold prelude_layers. destruct Hwhy as [Hopt|(b & e & Hb & Hmedia & Hparse)].
  - do 2 apply Exists_cons_tl. apply Exists_cons_hd.
    apply cors_blocks_preflight, Hopt.
  - pose proof (parser_blocks_malformed env req b e Hb Hmedia Hparse) as Hblock.
    unfold parser_for in Hblock. rewrite Hb in Hblock.
    destruct (is_json (media b)).
    + do 3 apply Exists_cons_tl. apply Exists_cons_hd. exact Hblock.
    + do 4 apply Exists_cons_tl. apply Exists_cons_hd. exact Hblock.
Qed.

Lemma preflights_and_malformed_bodies_stop_early_witness :
  let req := {| method := "OPTIONS"; path := "/api/jobs"; originalUrl := "/api/jobs";
                origin := Some "http://localhost:3000"; body := None |} in
  stopped_at_prelude
    (entered (events (snd (handle_request healthy (application production)
                             req initial_state)))).
Proof.
  intros req.
  destruct (preflights_and_malformed_bodies_stop_early healthy production req
              initial_state) as (run & Hrun & Hstop).
  - left. reflexivity.
  - rewrite Hrun. exact Hstop.
Defined.

(** ** A router and the tables of its resource *)

(** The log only grows. *)
Lemma grows_refl (st : State) : exists new, events st = (events st ++ new)%list.
Proof. exists []. rewrite app_nil_r. reflexivity. Qed.

Lemma grows_trans (a b c : State) :
  (exists new, events b = (events a ++ new)%list) ->
  (exists new, events c = (events b ++ new)%list) ->
  exists new, events c = (events a ++ new)%list.
Proof.
  intros [n1 H1] [n2 H2]. exists (n1 ++ n2)%list.
  rewrite H2, H1, app_assoc. reflexivity.
Qed.

Section Visits.

Context (env : Env).

Lemma grows_run_layer h err started req (st : State) :
  exists new,
    events (snd (run_layer env h err started req st)) = (events st ++ new)%list.
Proof.
  apply (frames_run_layer env
           (fun a b => exists new, events b = (events a ++ new)%list)).
  - apply grows_refl.
  - apply grows_trans.
  - intros s. exists []. cbn. rewrite app_nil_r. reflexivity.
  - intros s. exists []. cbn. rewrite app_nil_r. reflexivity.
  - intros line s. exists []. cbn. rewrite app_nil_r. reflexivity.
  - intros e s _. exists [e]. reflexivity.
  - intros s. destruct (getPool_events env s) as (new & Hnew & _). eauto.
  - intros cls rq s. rewrite routerMount_run.
    destruct (getPool_events env s) as (new & Hnew & _).
    destruct (getPool env s) as [[p|e] s1]; cbn [snd events] in *;
      [|eauto].
    rewrite Hnew, <- !app_assoc. eauto.
Qed.

Lemma grows_dispatch layers err started req (st : State) :
  exists new,
    events (snd (dispatch env layers err started req st)) = (events st ++ new)%list.
Proof.
  apply (frames_dispatch env
           (fun a b => exists new, events b = (events a ++ new)%list)).
  - apply grows_refl.
  - apply grows_trans.
  - intros s. exists []. cbn. rewrite app_nil_r. reflexivity.
  - intros line s. exists []. cbn. rewrite app_nil_r. reflexivity.
  - intros h s. exists [EvEnter h]. reflexivity.
  - intros. apply grows_run_layer.
Qed.

(** Each layer in the record of a request belongs to a layer of the stack
    that matched, was run at some point of the request, and what it wrote
    is still in the log at the end. *)
Lemma dispatch_visits (layers : list Layer) :
  forall err started req st run h,
    entered (events (snd (dispatch env layers err started req st))) =
      (entered (events st) ++ run)%list ->
    h ∈ run ->
    exists l s err' started',
      l ∈ layers /\ handler l = h /\ layer_matches env l req = true /\
      (exists new, events s = (events st ++ new)%list) /\
      (exists new,
         events (snd (dispatch env layers err started req st)) =
         (events (snd (run_layer env h err' started' req (emit (EvEnter h) s)))
            ++ new)%list).
Proof.
  induction layers as [|l rest IH]; intros err started req st run h;
    cbn [dispatch].
  - rewrite finish_events. intros Hrun Hin.
    rewrite <- (app_nil_r (entered (events st))) in Hrun at 1.
    apply app_inv_head in Hrun. subst run.
    apply not_elem_of_nil in Hin. contradiction.
  - destruct (layer_matches env l req) eqn:Hm; cbn [negb].
    2:{ intros Hrun Hin.
        destruct (IH err started req st run h Hrun Hin)
          as (l' & s & e' & s' & Hl' & Hrest).
        exists l', s, e', s'. split; [apply list_elem_of_further, Hl'|exact Hrest]. }
    destruct (negb (Bool.eqb _ _)).
    { intros Hrun Hin.
      destruct (IH err started req st run h Hrun Hin)
        as (l' & s & e' & s' & Hl' & Hrest).
      exists l', s, e', s'. split; [apply list_elem_of_further, Hl'|exact Hrest]. }
    pose proof (entered_run_layer env (handler l) err started req
                  (emit (EvEnter (handler l)) st)) as Hl.
    pose proof (grows_run_layer (handler l) err started req
                  (emit (EvEnter (handler l)) st)) as Hgrow.
    destruct (run_layer env (handler l) err started req _)
      as [[o started'] st1] eqn:Hrl.
    cbn [snd] in Hl, Hgrow.
    assert (Hst1 : exists new, events st1 = (events st ++ new)%list).
    { destruct Hgrow as [new ->]. cbn [emit events]. rewrite <- app_assoc. eauto. }
    cbn [emit events] in Hl. rewrite entered_app in Hl. cbn in Hl.
    assert (Hhere : forall final,
               (exists new, events final = (events st1 ++ new)%list) ->
               exists l0 s err' started'0,
                 l0 ∈ l :: rest /\ handler l0 = handler l /\
                 layer_matches env l0 req = true /\
                 (exists new, events s = (events st ++ new)%list) /\
                 (exists new,
                    events final =
                    (events (snd (run_layer env (handler l) err' started'0 req
                                    (emit (EvEnter (handler l)) s))) ++ new)%list)).
    { intros final Hfinal. exists l, st, err, started.
      rewrite Hrl. cbn [snd].
      split_and!; [apply list_elem_of_here|reflexivity|exact Hm
                  |apply grows_refl|exact Hfinal]. }
    assert (Hlater : forall err1 run',
               entered (events (snd (dispatch env rest err1 started' req st1))) =
                 (entered (events st1) ++ run')%list ->
               h ∈ run' ->
               exists l0 s err' started'0,
                 l0 ∈ l :: rest /\ handler l0 = h /\
                 layer_matches env l0 req = true /\
                 (exists new, events s = (events st ++ new)%list) /\
                 (exists new,
                    events (snd (dispatch env rest err1 started' req st1)) =
                    (events (snd (run_layer env h err' started'0 req
                                    (emit (EvEnter h) s))) ++ new)%list)).
    { intros err1 run' Hrun' Hin'.
      destruct (IH err1 started' req st1 run' h Hrun' Hin')
        as (l' & s & e' & s' & Hl' & Hh & Hm' & Hs & Hfin).
      exists l', s, e', s'.
      split_and!; [apply list_elem_of_further, Hl'|exact Hh|exact Hm'| |exact Hfin].
      eapply grows_trans; [exact Hst1|exact Hs]. }
    destruct o.
    + intros Hrun Hin.
      destruct (dispatch_entered env rest None started' req st1)
        as (run' & Hrun' & _).
      rewrite Hrun', Hl, <- app_assoc in Hrun. apply app_inv_head in Hrun.
      subst run. apply elem_of_cons in Hin as [->|Hin].
      * apply Hhere, grows_dispatch.
      * apply (Hlater None run' Hrun' Hin).
    + intros Hrun Hin.
      destruct (dispatch_entered env rest (Some e) started' req st1)
        as (run' & Hrun' & _).
      rewrite Hrun', Hl, <- app_assoc in Hrun. apply app_inv_head in Hrun.
      subst run. apply elem_of_cons in Hin as [->|Hin].
      * apply Hhere, grows_dispatch.
      * apply (Hlater (Some e) run' Hrun' Hin).
    + rewrite finish_events. intros Hrun Hin.
      rewrite Hl in Hrun. apply app_inv_head in Hrun. subst run.
      apply list_elem_of_singleton in Hin as ->.
      apply Hhere, grows_refl.
    + cbn [snd]. intros Hrun Hin.
      rewrite Hl in Hrun. apply app_inv_head in Hrun. subst run.
      apply list_elem_of_singleton in Hin as ->.
      apply Hhere, grows_refl.
Qed.

(** With working collaborators the schema-initialisation layer enters
    exactly the initialisers the path selects. *)
Lemma schemaInit_layer_exact err started req (st : State) :
  schema_collaborators_work env ->
  initialised (events (snd (run_layer env SchemaInit err started req st))) =
  (initialised (events st) ++ required_inits (path req))%list.
Proof.
  intros Hw.
  assert (Hsnd : snd (run_layer env SchemaInit err started req st) =
                 snd (schemaInit env req st)).
  { unfold run_layer, settle. cbn [run_handler].
    destruct (schemaInit env req st) as [[o|e] st1]; destruct err; reflexivity. }
  rewrite Hsnd, schemaInit_initialised. unfold required_inits.
  destruct (startsWith (path req) "/api/"); [|rewrite app_nil_r; reflexivity].
  rewrite schemaInit_try_run.
  destruct (run_inits_spec env (baseline ++ selected (path req)) st)
    as (ran & Hran & _ & Hall & _).
  rewrite Hran. f_equal. apply Hall, run_inits_works, Hw.
Qed.

End Visits.

Lemma startsWith_split (p a : string) :
  startsWith p a = true -> exists s, p = a ++ s.
Proof.
  unfold startsWith. revert p. induction a as [|x a IH]; intros p Hp.
  - exists p. reflexivity.
  - destruct p as [|y p]; [discriminate|]. cbn in Hp.
    destruct (Ascii.ascii_dec x y) as [->|]; [|discriminate].
    destruct (IH p Hp) as [s ->]. exists s. reflexivity.
Qed.

(** Where the router of a resource with an initialiser is mounted. *)
Lemma router_of_resource_mounted_at
    (penv : ProcessEnv) (l : Layer) (pfx : string) (cls : ControllerClass) :
  l ∈ application penv -> handler l = RouterMount cls ->
  (pfx, cls) ∈ resource_prefixes -> mount l = Prefix pfx.
Proof.
  rewrite application_layout.
  unfold prelude_layers, inner_layers, mount_router, use, use_at, get_at,
    resource_prefixes.
  cbn [app]. intros Hin Hh Htable.
  repeat (apply elem_of_cons in Hin as [->|Hin];
          [cbn [handler mount] in *; try discriminate;
           injection Hh as <-;
           repeat (apply elem_of_cons in Htable as [Heq|Htable];
                   [first [discriminate Heq | injection Heq as ->; reflexivity]|]);
           apply not_elem_of_nil in Htable; contradiction|]).
  apply not_elem_of_nil in Hin. contradiction.
Qed.

Lemma prefix_of_longer (p q s : string) :
  String.prefix (p ++ q) s = true -> String.prefix p s = true.
Proof.
  revert s. induction p as [|x p IH]; intros s Hs; [destruct s; reflexivity|].
  destruct s as [|y s]; [discriminate|].
  change (String x p ++ q) with (String x (p ++ q)) in Hs.
  cbn [String.prefix] in *.
  destruct (Ascii.ascii_dec x y); [apply (IH s Hs)|discriminate].
Qed.

Lemma prefix_refl (s : string) : String.prefix s s = true.
Proof.
  induction s as [|x s IH]; [reflexivity|]. cbn.
  destruct (Ascii.ascii_dec x x); [exact IH|contradiction].
Qed.

(** The example matcher only matches a mount whose prefix the path starts
    with. *)
Lemma segment_match_respects_prefix (req : Request) (p : string) :
  segment_match (Prefix p) req = true -> startsWith (path req) p = true.
Proof.
  unfold segment_match, startsWith. intros Hm.
  apply orb_true_iff in Hm as [Heq|Hpre].
  - apply String.eqb_eq in Heq. rewrite Heq. apply prefix_refl.
  - eapply prefix_of_longer, Hpre.
Qed.

(** X17: a router of a resource with an initialiser finds the tables of its
    resource initialised.  With working collaborators and a path matching
    that matches a mount only when the path starts with its prefix, every
    request that reaches the router of one of the seven resources has
    entered the initialiser of that resource within the same request. *)
Theorem routers_find_their_tables_initialised
    (env : Env) (penv : ProcessEnv) (req : Request) (st : State)
    (pfx : string) (cls : ControllerClass) (run : list Handler) :
  schema_collaborators_work env ->
  (forall p, route_matches env (Prefix p) req = true ->
             startsWith (path req) p = true) ->
  (pfx, cls) ∈ resource_prefixes ->
  entered (events (snd (handle_request env (application penv) req st))) =
    (entered (events st) ++ run)%list ->
  RouterMount cls ∈ run ->
  exists before after,
    initialised (events (snd (handle_request env (application penv) req st))) =
    (initialised (events st) ++ before ++ cls :: after)%list.
Proof.
  intros Hw Hmatcher Htable Hrun Hrouter. unfold handle_request in *.
  (* the path selects the initialiser of the resource *)
  assert (Hreq : required_inits (path req) =
                 [OfficeController; TeamController; AuthController; cls]).
  { destruct (dispatch_visits env _ _ _ _ _ _ _ Hrun Hrouter)
      as (l & _ & _ & _ & Hl & Hh & Hm & _).
    pose proof (router_of_resource_mounted_at penv l pfx cls Hl Hh Htable) as Hmount.
    unfold layer_matches in Hm. rewrite Hmount in Hm.
    destruct (startsWith_split _ _ (Hmatcher _ Hm)) as [suffix ->].
    apply required_under_resource_prefix, Htable. }
  (* the schema initialisation has run *)
  assert (Hschema : SchemaInit ∈ run).
  { assert (Hrun' := Hrun). rewrite application_globals_first in Hrun'.
    destruct (through_global_layers env req (global_layers penv)) with
      (normal := drop 2 inner_layers) (started := @None Z) (st := st)
      as (run0 & Hrun0 & Hcases); [repeat constructor..|].
    rewrite Hrun' in Hrun0. apply app_inv_head in Hrun0. subst run0.
    destruct Hcases as [[k ->]|Hall].
    - cbn. find_in_list.
    - rewrite Forall_forall in Hall.
      destruct (Hall _ Hrouter) as [Hglobal|Heq]; [|discriminate].
      cbn in Hglobal.
      repeat (apply elem_of_cons in Hglobal as [Heq|Hglobal]; [discriminate|]).
      apply not_elem_of_nil in Hglobal. contradiction. }
  destruct (dispatch_visits env _ _ _ _ _ _ _ Hrun Hschema)
    as (_ & s & err' & started' & _ & _ & _ & [a Ha] & [b Hb]).
  rewrite Hb, initialised_app, (schemaInit_layer_exact env _ _ _ _ Hw), Hreq.
  cbn [emit events]. rewrite Ha, !initialised_app. cbn.
  exists (initialised a ++ [OfficeController; TeamController; AuthController])%list,
         (initialised b).
  rewrite !app_nil_r, <- !app_assoc. reflexivity.
Qed.

Lemma routers_find_their_tables_initialised_witness :
  exists before after,
    initialised (events (snd (handle_request healthy (application production)
                                (get "/api/leads/3") initial_state))) =
    (before ++ LeadController :: after)%list.
Proof.
  apply (routers_find_their_tables_initialised healthy production
           (get "/api/leads/3") initial_state "/api/leads" LeadController
           [Helmet; Compression; Cors (corsOptions production);
            BodyJson limit_1mb; BodyUrlencoded limit_1mb; AccessLog; SchemaInit;
            SanitizeInputs; RouterMount LeadController]).
  - apply healthy_works.
  - intros p. apply segment_match_respects_prefix.
  - unfold resource_prefixes. find_in_list.
  - vm_compute. reflexivity.
  - find_in_list.
Defined.
